(** * Linear uncertainty propagation: the [Error] class of errorcalc.py

    A shallow embedding of [errorcalc.Error] (construction, [substitute],
    [latex_out], [result]) together with the fragment of the computer
    algebra system it drives: expression trees, structural differentiation,
    substitution and evaluation over the reals. *)

From Stdlib Require Import String Ascii List Bool ZArith QArith Qround Qabs.
From Stdlib Require Import Qreals Reals RMicromega Lra Lia.
From Stdlib Require Import DecimalString.
Import ListNotations.

Local Open Scope list_scope.
Local Open Scope string_scope.

(* ================================================================== *)
(** ** Python runtime: exceptions, numbers, strings, ordered dicts     *)
(* ================================================================== *)

(** A raised exception: the name of its class and its argument. *)
Record pyexc : Type := Raise { exc_class : string; exc_arg : string }.

Definition KeyError (key : string) : pyexc := Raise "KeyError" key.
Definition TypeError (msg : string) : pyexc := Raise "TypeError" msg.
Definition AttributeError (msg : string) : pyexc := Raise "AttributeError" msg.
Definition IndexError (msg : string) : pyexc := Raise "IndexError" msg.

(** A computation that returns a value or raises. *)
Definition exc (A : Type) : Type := (pyexc + A)%type.

Definition exc_bind {A B : Type} (m : exc A) (k : A -> exc B) : exc B :=
  match m with
  | inl e => inl e
  | inr a => k a
  end.

(** Python numbers: [int] and [float].  A float is idealised as the exact
    rational it denotes; binary rounding is outside the model, and so are
    [inf] and [nan].  The value of an expression is therefore its value in
    exact arithmetic: it is what the code computes wherever the code
    computes exactly, as it does on whole numbers. *)
Inductive number : Type :=
| Int (z : Z)
| Float (q : Q).

Definition num_val (n : number) : Q :=
  match n with
  | Int z => inject_Z z
  | Float q => q
  end.

(** [int(x)]: truncation towards zero. *)
Definition py_int (n : number) : Z :=
  match n with
  | Int z => z
  | Float q => if Qle_bool 0 q then Qfloor q else Qceiling q
  end.

(** [float(x)], for a number that a double holds exactly.  Python rounds
    an [int] beyond [2^53] and raises [OverflowError] for one beyond the
    range of the doubles; such numbers are outside this definition. *)
Definition py_float (n : number) : number := Float (num_val n).

(** [x == y] on numbers. *)
Definition num_eqb (x y : number) : bool := Qeq_bool (num_val x) (num_val y).

(** [s.split(sep)] for a one-character separator. *)
Fixpoint split (sep : ascii) (s : string) : list string :=
  match s with
  | EmptyString => [EmptyString]
  | String c s' =>
      if Ascii.eqb c sep then EmptyString :: split sep s'
      else match split sep s' with
           | [] => [String c EmptyString]
           | w :: ws => String c w :: ws
           end
  end.

(** [sep.join(parts)]. *)
Fixpoint join (sep : string) (parts : list string) : string :=
  match parts with
  | [] => EmptyString
  | [p] => p
  | p :: ps => p ++ sep ++ join sep ps
  end.

(** [s.replace(old, new)]: every non-overlapping occurrence, left to right.
    [skip] counts the characters of a matched occurrence still to drop. *)
Fixpoint replace_from (skip : nat) (old new s : string) : string :=
  match s with
  | EmptyString => EmptyString
  | String c s' =>
      match skip with
      | S k => replace_from k old new s'
      | O =>
          if prefix old s
          then new ++ replace_from (String.length old - 1) old new s'
          else String c (replace_from 0 old new s')
      end
  end.

Fixpoint intersperse (new s : string) : string :=
  match s with
  | EmptyString => new
  | String c s' => new ++ String c (intersperse new s')
  end.

Definition replace (old new s : string) : string :=
  match old with
  | EmptyString => intersperse new s
  | _ => replace_from 0 old new s
  end.

(** A [dict] with string keys: insertion-ordered, keys unique. *)
Definition dict (V : Type) : Type := list (string * V).

Fixpoint dict_get {V : Type} (d : dict V) (k : string) : option V :=
  match d with
  | [] => None
  | (k', v) :: d' => if String.eqb k k' then Some v else dict_get d' k
  end.

(** [d[k] = v]: overwrite in place, or append a new key at the end. *)
Fixpoint dict_set {V : Type} (k : string) (v : V) (d : dict V) : dict V :=
  match d with
  | [] => [(k, v)]
  | (k', v') :: d' =>
      if String.eqb k k' then (k', v) :: d' else (k', v') :: dict_set k v d'
  end.

Definition keys {V : Type} (d : dict V) : list string := map fst d.
Definition dict_values {V : Type} (d : dict V) : list V := map snd d.

(** [d[k]], raising [KeyError(k)] when the key is absent. *)
Definition getitem {V : Type} (d : dict V) (k : string) : exc V :=
  match dict_get d k with
  | Some v => inr v
  | None => inl (KeyError k)
  end.

(** [l[i]], raising [IndexError] out of range. *)
Definition index {A : Type} (l : list A) (i : nat) : exc A :=
  match nth_error l i with
  | Some a => inr a
  | None => inl (IndexError "list index out of range")
  end.

(* ================================================================== *)
(** ** The algebra system: expressions                                 *)
(* ================================================================== *)

(** Expression trees over named symbols.  A symbol is identified with
    its name, so [str(Symbol(name))] is [name]. *)
Inductive expr : Type :=
| Sym (name : string)
| Num (n : number)
| Add (u v : expr)
| Sub (u v : expr)
| Mul (u v : expr)
| Div (u v : expr)
| Pow (u v : expr)
| Neg (u : expr)
| Sin (u : expr)
| Cos (u : expr)
| Sqrt (u : expr)
| Ln (u : expr)
| Abs (u : expr).

(** [x in e.free_symbols]. *)
Fixpoint occurs (x : string) (e : expr) : bool :=
  match e with
  | Sym y => String.eqb x y
  | Num _ => false
  | Add u v | Sub u v | Mul u v | Div u v | Pow u v => occurs x u || occurs x v
  | Neg u | Sin u | Cos u | Sqrt u | Ln u | Abs u => occurs x u
  end.

Definition zero : expr := Num (Int 0).
Definition one : expr := Num (Int 1).
Definition two : expr := Num (Int 2).

(** Modelled from the spec: the algebra system's [Expr.diff] is an external
    library that is not part of the sources; this is the structural
    differentiation of section 4.2.  A subtree in which the variable does
    not occur has derivative [0]; otherwise the rule of the head operator
    applies.  The absolute value, which [result] wraps around every
    derivative, follows the standard rule [|u|' = u * u' / |u|]. *)
Fixpoint diff (x : string) (e : expr) : expr :=
  if negb (occurs x e) then zero
  else
    match e with
    | Sym _ => one
    | Num _ => zero
    | Add u v => Add (diff x u) (diff x v)
    | Sub u v => Sub (diff x u) (diff x v)
    | Mul u v => Add (Mul (diff x u) v) (Mul u (diff x v))
    | Div u v =>
        Div (Sub (Mul (diff x u) v) (Mul u (diff x v))) (Pow v two)
    | Pow u v =>
        if negb (occurs x v)
        then Mul (Mul v (Pow u (Sub v one))) (diff x u)
        else Mul (Pow u v)
                 (Add (Mul (diff x v) (Ln u)) (Div (Mul v (diff x u)) u))
    | Neg u => Neg (diff x u)
    | Sin u => Mul (Cos u) (diff x u)
    | Cos u => Mul (Neg (Sin u)) (diff x u)
    | Sqrt u => Div (diff x u) (Mul two (Sqrt u))
    | Ln u => Div (diff x u) u
    | Abs u => Div (Mul u (diff x u)) (Abs u)
    end.

(** [e.subs(d)]: every symbol whose name is a key of [d] is replaced by
    the number bound to it; no arithmetic is carried out on the tree. *)
Fixpoint subs (d : dict number) (e : expr) : expr :=
  match e with
  | Sym y => match dict_get d y with Some n => Num n | None => Sym y end
  | Num n => Num n
  | Add u v => Add (subs d u) (subs d v)
  | Sub u v => Sub (subs d u) (subs d v)
  | Mul u v => Mul (subs d u) (subs d v)
  | Div u v => Div (subs d u) (subs d v)
  | Pow u v => Pow (subs d u) (subs d v)
  | Neg u => Neg (subs d u)
  | Sin u => Sin (subs d u)
  | Cos u => Cos (subs d u)
  | Sqrt u => Sqrt (subs d u)
  | Ln u => Ln (subs d u)
  | Abs u => Abs (subs d u)
  end.

(* ================================================================== *)
(** ** The algebra system: evaluation over the reals                   *)
(* ================================================================== *)

(** An assignment of reals to symbols; an unbound symbol has no value. *)
Definition env : Type := string -> option R.

Definition empty_env : env := fun _ => None.

Definition upd (rho : env) (x : string) (t : R) : env :=
  fun y => if String.eqb y x then Some t else rho y.

Definition opt_bind {A B : Type} (m : option A) (k : A -> option B) : option B :=
  match m with
  | Some a => k a
  | None => None
  end.

(** [y] as an integer, when it is one. *)
Definition is_int (y : R) : option Z :=
  if Req_dec_T y (IZR (Int_part y)) then Some (Int_part y) else None.

(** The real power [x ** y]: [exp (y * ln x)] on a positive base, repeated
    multiplication or its inverse for an integer exponent, and no real
    value otherwise. *)
Definition rpow (x y : R) : option R :=
  if Rlt_dec 0 x then Some (Rpower x y)
  else
    match is_int y with
    | Some k =>
        if (0 <=? k)%Z then Some (x ^ Z.to_nat k)%R
        else if Req_dec_T x 0 then None
             else Some (/ x ^ Z.to_nat (- k))%R
    | None => None
    end.

Definition rdiv (x y : R) : option R :=
  if Req_dec_T y 0 then None else Some (x / y)%R.

Definition rsqrt (x : R) : option R :=
  if Rle_dec 0 x then Some (sqrt x) else None.

Definition rln (x : R) : option R :=
  if Rlt_dec 0 x then Some (ln x) else None.

(** The real number an expression denotes under [rho], when every symbol
    is bound and every operation is defined on the reals. *)
Fixpoint eval (rho : env) (e : expr) : option R :=
  match e with
  | Sym y => rho y
  | Num n => Some (Q2R (num_val n))
  | Add u v =>
      opt_bind (eval rho u) (fun a => opt_bind (eval rho v) (fun b => Some (a + b)%R))
  | Sub u v =>
      opt_bind (eval rho u) (fun a => opt_bind (eval rho v) (fun b => Some (a - b)%R))
  | Mul u v =>
      opt_bind (eval rho u) (fun a => opt_bind (eval rho v) (fun b => Some (a * b)%R))
  | Div u v =>
      opt_bind (eval rho u) (fun a => opt_bind (eval rho v) (fun b => rdiv a b))
  | Pow u v =>
      opt_bind (eval rho u) (fun a => opt_bind (eval rho v) (fun b => rpow a b))
  | Neg u => opt_bind (eval rho u) (fun a => Some (- a)%R)
  | Sin u => opt_bind (eval rho u) (fun a => Some (sin a))
  | Cos u => opt_bind (eval rho u) (fun a => Some (cos a))
  | Sqrt u => opt_bind (eval rho u) rsqrt
  | Ln u => opt_bind (eval rho u) rln
  | Abs u => opt_bind (eval rho u) (fun a => Some (Rabs a))
  end.

(** The numeric value of an expression without free symbols. *)
Definition value_of (e : expr) : option R := eval empty_env e.

(** The assignment a substitution dict stands for. *)
Definition env_of (d : dict number) : env :=
  fun y => option_map (fun n => Q2R (num_val n)) (dict_get d y).

(** [eval] with [0] where there is no value: the real function whose
    derivative is taken. *)
Definition eval_total (rho : env) (e : expr) : R :=
  match eval rho e with
  | Some r => r
  | None => 0%R
  end.

(** Exact rational evaluation of the closed rational fragment (numbers,
    the four operations, integer powers, sign and absolute value). *)
Definition q_is_int (q : Q) : option Z :=
  if Qeq_bool q (inject_Z (Qfloor q)) then Some (Qfloor q) else None.

Fixpoint evalQ (e : expr) : option Q :=
  match e with
  | Sym _ => None
  | Num n => Some (num_val n)
  | Add u v =>
      opt_bind (evalQ u) (fun a => opt_bind (evalQ v) (fun b => Some (a + b)%Q))
  | Sub u v =>
      opt_bind (evalQ u) (fun a => opt_bind (evalQ v) (fun b => Some (a - b)%Q))
  | Mul u v =>
      opt_bind (evalQ u) (fun a => opt_bind (evalQ v) (fun b => Some (a * b)%Q))
  | Div u v =>
      opt_bind (evalQ u) (fun a => opt_bind (evalQ v) (fun b =>
        if Qeq_bool b 0 then None else Some (a / b)%Q))
  | Pow u v =>
      opt_bind (evalQ u) (fun a => opt_bind (evalQ v) (fun b =>
        match q_is_int b with
        | Some k =>
            if (k <? 0)%Z && Qeq_bool a 0 then None else Some (Qpower a k)
        | None => None
        end))
  | Neg u => opt_bind (evalQ u) (fun a => Some (- a)%Q)
  | Abs u => opt_bind (evalQ u) (fun a => Some (Qabs.Qabs a))
  | Sin _ | Cos _ | Sqrt _ | Ln _ => None
  end.

(* ================================================================== *)
(** ** Callables and their signatures                                  *)
(* ================================================================== *)

(** What a formula returns: a plain Python number or an expression. *)
Inductive pyval : Type :=
| PyNum (n : number)
| PyExpr (e : expr).

(** The record [inspect.getfullargspec] returns. *)
Record FullArgSpec : Type := {
  args : list string;
  varargs : option string;
  varkw : option string;
  defaults : list pyval;
  kwonlyargs : list string;
  kwonlydefaults : dict pyval
}.

(** A formula: its signature, and the value of its body when every
    positional parameter is bound to the symbol that carries its name,
    the variadic parameters are empty and the keyword-only parameters
    take their defaults.  A formula is a plain function whose body
    returns: a body that raises on symbols, and a bound method, whose
    [args] lists [self] as well, are not values of this type. *)
Record callable : Type := {
  getfullargspec : FullArgSpec;
  body : pyval
}.

Definition mem (k : string) (l : list string) : bool :=
  existsb (String.eqb k) l.

(** The call of [func] on the unpacked [variables], one symbol per name
    of [args]: for a plain function the count of positional arguments
    always fits, so the binding of the arguments raises only for a
    keyword-only parameter that has no default; the body then returns. *)
Definition call_with_symbols (func : callable) (variables : list string)
  : exc pyval :=
  let spec := getfullargspec func in
  match
    find (fun k => negb (mem k (keys (kwonlydefaults spec)))) (kwonlyargs spec)
  with
  | Some k => inl (TypeError ("missing required keyword-only argument: " ++ k))
  | None => inr (body func)
  end.

(** [f.diff(variable)]: a plain number has no such method. *)
Definition diff_method (f : pyval) (variable : string) : exc expr :=
  match f with
  | PyExpr e => inr (diff variable e)
  | PyNum _ => inl (AttributeError "object has no attribute 'diff'")
  end.

(* ================================================================== *)
(** ** class Error                                                     *)
(* ================================================================== *)

Record Error : Type := {
  variables : list string;
  error_symbols : list string;
  f : pyval;
  derivatives : dict expr
}.

(** The loop of [__init__].  The second component records, in order, the
    variable of every call of [diff]. *)
Fixpoint init_loop (fv : pyval) (vars : list string)
    (acc : dict expr * list string) : exc (dict expr * list string) :=
  match vars with
  | [] => inr acc
  | variable :: rest =>
      exc_bind (diff_method fv variable) (fun f_prime =>
        init_loop fv rest
          (dict_set variable f_prime (fst acc), (snd acc ++ [variable])%list))
  end.

Definition init_traced (func : callable) : exc (Error * list string) :=
  let arg_names := args (getfullargspec func) in
  let vars := arg_names in
  let esyms := map (fun variable => "delta_" ++ variable) vars in
  exc_bind (call_with_symbols func vars) (fun fv =>
  exc_bind (init_loop fv vars ([], [])) (fun r =>
    inr ({| variables := vars;
            error_symbols := esyms;
            f := fv;
            derivatives := fst r |}, snd r))).

(** [Error(func)]. *)
Definition init (func : callable) : exc Error :=
  exc_bind (init_traced func) (fun r => inr (fst r)).

(** The calls of [diff] made by [Error(func)]. *)
Definition diff_calls (func : callable) : list string :=
  match init_traced func with
  | inr r => snd r
  | inl _ => []
  end.

(** Methods run against the instance and hand it back. *)
Definition M (A : Type) : Type := Error -> exc A * Error.

Definition ret {A : Type} (a : A) : M A := fun self => (inr a, self).

Definition bind {A B : Type} (m : M A) (k : A -> M B) : M B :=
  fun self =>
    match m self with
    | (inl e, self') => (inl e, self')
    | (inr a, self') => k a self'
    end.

Definition attr {A : Type} (field : Error -> A) : M A :=
  fun self => (inr (field self), self).

Definition lift {A : Type} (c : exc A) : M A := fun self => (c, self).

Notation "x <- m ;; k" := (bind m (fun x => k))
  (at level 61, m at next level, right associativity).

Fixpoint mapM {A B : Type} (g : A -> M B) (l : list A) : M (list B) :=
  match l with
  | [] => ret []
  | a :: l' => b <- g a ;; bs <- mapM g l' ;; ret (b :: bs)
  end.

(** A measurement: [(value, unit)]. *)
Definition measurement : Type := (number * string)%type.

(** [{k: v[0] for k, v in values.items()}]. *)
Definition value_dict (values : dict measurement) : dict number :=
  map (fun kv => (fst kv, fst (snd kv))) values.

(** [sum(terms)]: starts from the integer [0] and adds from the left. *)
Definition sum (terms : list expr) : expr :=
  fold_left Add terms zero.

(** One element of the list that [result] and [latex_out] sum. *)
Definition error_term (values : dict measurement) (delta_name : string)
  : M expr :=
  m <- lift (getitem values delta_name) ;;
  ds <- attr derivatives ;;
  name <- lift (index (split "_" delta_name) 1) ;;
  derivative <- lift (getitem ds name) ;;
  ret (Mul (Num (fst m)) (Abs (subs (value_dict values) derivative))).

(** [Error.result]. *)
Definition result (values : dict measurement) : M expr :=
  esyms <- attr error_symbols ;;
  terms <- mapM (error_term values) esyms ;;
  ret (sum terms).

(* ================================================================== *)
(** ** Rendering                                                       *)
(* ================================================================== *)

Definition nl : string := String (ascii_of_nat 10) EmptyString.

Section Rendering.

(** The printers [latex_out] relies on: the typesetter of expressions
    ([sym.latex]), the text an f-string gives a number, and the
    conversion [float(...)] of a computed expression, which raises on an
    expression that is not a number. *)
Variable latex : expr -> string.
Variable str_num : number -> string.
Variable float_of : expr -> exc number.

(** One pass of the loop of [substitute]. *)
Definition substitute_term (values : dict measurement) (variable : string)
  : M string :=
  let variable_name := variable in
  ds <- attr derivatives ;;
  derivative <- lift (getitem ds variable_name) ;;
  let derivative_sub := subs (value_dict values) derivative in
  let derivative_latex := latex derivative_sub in
  m <- lift (getitem values ("delta_" ++ variable_name)) ;;
  ret (str_num (fst m) ++ " \cdot \left|" ++ derivative_latex ++ "\right|").

(** [Error.substitute]. *)
Definition substitute (values : dict measurement) : M string :=
  vars <- attr variables ;;
  derivatives_sub <- mapM (substitute_term values) vars ;;
  ret (join " + " derivatives_sub).

(** One pass of the unit-annotation loop of [latex_out].  The conversions
    [int(...)] and [float(...)] of its test are those above: they are
    taken on numbers they convert exactly and do not raise. *)
Definition annotate (substituted_str : string) (value : measurement)
  : string :=
  if num_eqb (fst value) (Float 0) then substituted_str
  else if num_eqb (Int (py_int (fst value))) (py_float (fst value))
  then replace (str_num (fst value))
         ("\SI{" ++ str_num (Int (py_int (fst value))) ++ "}{"
                 ++ snd value ++ "}")
         substituted_str
  else replace (str_num (fst value))
         ("\SI{" ++ str_num (py_float (fst value)) ++ "}{"
                 ++ snd value ++ "}")
         substituted_str.

(** The first line of the block: the generic law. *)
Definition generic_line (ds : dict expr) : string :=
  "    &= \Delta "
    ++ join " + \Delta "
         (map (fun item =>
                 fst item ++ " \cdot \left|" ++ latex (snd item) ++ "\right|")
              ds)
    ++ "\\" ++ nl.

(** The second line: the law with the values put in. *)
Definition substituted_line (substituted_str : string) : string :=
  "    &= " ++ substituted_str ++ "\\" ++ nl.

(** The third line: the aggregate. *)
Definition result_line (r : number) : string :=
  "    &= \SI{" ++ str_num r ++ "}{}" ++ nl.

(** [Error.latex_out]. *)
Definition latex_out (values : dict measurement) : M string :=
  ds <- attr derivatives ;;
  let latex_str := "\begin{align*}" ++ nl in
  let latex_str := latex_str ++ generic_line ds in
  substituted_str <- substitute values ;;
  let substituted_str :=
    fold_left annotate (dict_values values) substituted_str in
  let latex_str := latex_str ++ substituted_line substituted_str in
  esyms <- attr error_symbols ;;
  terms <- mapM (error_term values) esyms ;;
  let result := sum terms in
  r <- lift (float_of result) ;;
  let latex_str := latex_str ++ result_line r in
  ret (latex_str ++ "\end{align*}" ++ nl ++ nl).

End Rendering.

(** *** Exact printers for rational results *)

(** The digits of [r / d] after the decimal point, at most [fuel] of them,
    stopping when the expansion ends. *)
Fixpoint frac_digits (fuel : nat) (r d : Z) : string :=
  match fuel with
  | O => EmptyString
  | S fuel' =>
      if (r =? 0)%Z then EmptyString
      else
        (NilZero.string_of_int (Z.to_int (10 * r / d))
           ++ frac_digits fuel' (10 * r mod d) d)
  end.

(** The text of a number: an [int] in decimal; a [float] in positional
    decimal notation with at least one digit after the point.  Python
    prints the shortest text that reads back as the same float and turns
    to exponent notation below [1e-4] and from [1e16] on; the two texts
    agree for the floats whose shortest text is positional and ends within
    seventeen digits, such as [9.6], and only those are printed here. *)
Definition py_str (n : number) : string :=
  match n with
  | Int z => NilZero.string_of_int (Z.to_int z)
  | Float q =>
      let num := Z.abs (Qnum q) in
      let den := Zpos (Qden q) in
      let sign := if (Qnum q <? 0)%Z then "-" else "" in
      let digits := frac_digits 17 (num mod den) den in
      sign ++ NilZero.string_of_int (Z.to_int (num / den)) ++ "."
           ++ match digits with EmptyString => "0" | _ => digits end
  end.

(** [float(e)] for a numeric expression of the rational fragment all of
    whose operations are defined.  On other expressions this definition
    raises, which is what the code does on an expression with a symbol;
    it is not meant for function values or for a division by zero, which
    the algebra system turns into an infinity. *)
Definition float_exact (e : expr) : exc number :=
  match evalQ e with
  | Some q => inr (Float (Qred q))
  | None => inl (TypeError "Cannot convert expression to float")
  end.

(** The number of characters after the first decimal point of [s], up to
    the closing brace. *)
Fixpoint upto_brace (s : string) : nat :=
  match s with
  | EmptyString => O
  | String c s' => if Ascii.eqb c "}" then O else S (upto_brace s')
  end.

Fixpoint digits_after_point (s : string) : option nat :=
  match s with
  | EmptyString => None
  | String c s' =>
      if Ascii.eqb c "." then Some (upto_brace s') else digits_after_point s'
  end.

(* ================================================================== *)
(** ** The formula and the measurements of test_error.py               *)
(* ================================================================== *)

Definition positional (names : list string) : FullArgSpec :=
  {| args := names; varargs := None; varkw := None; defaults := [];
     kwonlyargs := []; kwonlydefaults := [] |}.

(** [def my_function1(a, b): return a + a * b ** 3]. *)
Definition formula1 : expr :=
  Add (Sym "a") (Mul (Sym "a") (Pow (Sym "b") (Num (Int 3)))).

Definition my_function1 : callable :=
  {| getfullargspec := positional ["a"; "b"]; body := PyExpr formula1 |}.

(** [errorcalc.Error(my_function1)]. *)
Definition error1 : Error :=
  {| variables := ["a"; "b"];
     error_symbols := ["delta_a"; "delta_b"];
     f := PyExpr formula1;
     derivatives := [("a", diff "a" formula1); ("b", diff "b" formula1)] |}.

Definition values1 : dict measurement :=
  [ ("a", (Int 1, "\volt"));
    ("b", (Int 2, ""));
    ("delta_a", (Float (4 # 10), "\volt"));
    ("delta_b", (Float (5 # 10), "")) ].

(** [def identity(x): return x]. *)
Definition identity : callable :=
  {| getfullargspec := positional ["x"]; body := PyExpr (Sym "x") |}.

(** [def underscored(x_1): return x_1]. *)
Definition underscored : callable :=
  {| getfullargspec := positional ["x_1"]; body := PyExpr (Sym "x_1") |}.

(** [def shadowed(x, x_1): return x]: the second parameter is unused. *)
Definition shadowed : callable :=
  {| getfullargspec := positional ["x"; "x_1"]; body := PyExpr (Sym "x") |}.




Definition values_underscored : dict measurement :=
  [ ("x_1", (Int 1, ""));
    ("delta_x_1", (Float (1 # 2), "")) ].

Definition values_shadowed : dict measurement :=
  [ ("x", (Int 1, ""));
    ("x_1", (Int 1, ""));
    ("delta_x", (Float (1 # 2), ""));
    ("delta_x_1", (Float (1 # 4), "")) ].

(** [errorcalc.Error(identity)]. *)
Definition error_x : Error :=
  {| variables := ["x"]; error_symbols := ["delta_x"];
     f := PyExpr (Sym "x"); derivatives := [("x", one)] |}.



(* ================================================================== *)
(** ** Text of an instance                                             *)
(* ================================================================== *)

Section Text.

(** The text [str] gives an expression. *)
Variable sstr : expr -> string.

(** [Error.__str__]. *)
Definition __str__ : M string :=
  ds <- attr derivatives ;;
  let derivatives_str :=
    join " + "
      (map (fun item => "delta_" ++ fst item ++ "*(" ++ sstr (snd item) ++ ")")
           ds) in
  ret derivatives_str.

(** [Error.__repr__]. *)
Definition __repr__ : M string := __str__.

End Text.

(* ================================================================== *)
(** ** class SymbolicDerivatives of Errorcalculator.py                 *)
(* ================================================================== *)

(** The variant whose measurements are plain numbers.  Its [__init__] is
    that of [Error], line for line, so an instance is an [Error] record
    built by [init]. *)
Module SymbolicDerivatives.

Section Rendering.

Variable latex : expr -> string.
Variable str_num : number -> string.

(** The text of [f"{result:.6f}"], which raises on an expression that is
    not a number. *)
Variable fixed6 : expr -> exc string.

(** One pass of the loop of [substitute]. *)
Definition substitute_term (values : dict number) (variable : string)
  : M string :=
  let variable_name := variable in
  ds <- attr derivatives ;;
  derivative <- lift (getitem ds variable_name) ;;
  let derivative_sub := subs values derivative in
  let derivative_latex := latex derivative_sub in
  m <- lift (getitem values ("delta_" ++ variable_name)) ;;
  ret (str_num m ++ " \cdot " ++ derivative_latex).

(** [SymbolicDerivatives.substitute]. *)
Definition substitute (values : dict number) : M string :=
  vars <- attr variables ;;
  derivatives_sub <- mapM (substitute_term values) vars ;;
  ret (join " + " derivatives_sub).

(** One pass of the annotation loop of [latex_output]. *)
Definition annotate (substituted_str : string) (value : number) : string :=
  if num_eqb value (Float 0) then substituted_str
  else replace (str_num value) ("\SI{" ++ str_num value ++ "}{}")
         substituted_str.

(** One element of the list that [latex_output] sums. *)
Definition error_term (values : dict number) (delta_name : string)
  : M expr :=
  m <- lift (getitem values delta_name) ;;
  ds <- attr derivatives ;;
  name <- lift (index (split "_" delta_name) 1) ;;
  derivative <- lift (getitem ds name) ;;
  ret (Mul (Num m) (Abs (subs values derivative))).

(** [SymbolicDerivatives.latex_output]. *)
Definition latex_output (values : dict number) : M string :=
  ds <- attr derivatives ;;
  let latex_str := "\begin{align*}" ++ nl in
  let latex_str :=
    latex_str
      ++ ("&= \Delta "
            ++ join " + \Delta "
                 (map (fun item =>
                         fst item ++ " \cdot \left|" ++ latex (snd item)
                             ++ "\right|")
                      ds)
            ++ "\\" ++ nl) in
  substituted_str <- substitute values ;;
  let substituted_str :=
    fold_left annotate (dict_values values) substituted_str in
  let latex_str := latex_str ++ ("&= " ++ substituted_str ++ "\\" ++ nl) in
  esyms <- attr error_symbols ;;
  terms <- mapM (error_term values) esyms ;;
  let result := sum terms in
  text <- lift (fixed6 result) ;;
  let latex_str := latex_str ++ ("&= " ++ text ++ nl) in
  ret (latex_str ++ "\end{align*}" ++ nl ++ nl).

End Rendering.

End SymbolicDerivatives.

(* ================================================================== *)
(** ** Names and mappings                                              *)
(* ================================================================== *)

(** The name contains no underscore. *)
Fixpoint no_underscore (name : string) : bool :=
  match name with
  | EmptyString => true
  | String c name' => negb (Ascii.eqb c "_") && no_underscore name'
  end.

(** The mapping has an entry under [key]. *)
Definition has_key {V : Type} (d : dict V) (key : string) : Prop :=
  dict_get d key <> None.

(** [errorcalc.Error(underscored)]. *)
Definition error_underscored : Error :=
  {| variables := ["x_1"]; error_symbols := ["delta_x_1"];
     f := PyExpr (Sym "x_1"); derivatives := [("x_1", one)] |}.

(** A complete mapping for [identity]. *)
Definition values_x : dict measurement :=
  [ ("x", (Int 1, "")); ("delta_x", (Float (1 # 2), "")) ].

(** [def with_unused(x, y): return x]: the second parameter is unused. *)
Definition with_unused : callable :=
  {| getfullargspec := positional ["x"; "y"]; body := PyExpr (Sym "x") |}.

(** [errorcalc.Error(with_unused)]. *)
Definition error_unused : Error :=
  {| variables := ["x"; "y"]; error_symbols := ["delta_x"; "delta_y"];
     f := PyExpr (Sym "x"); derivatives := [("x", one); ("y", zero)] |}.

Definition values_xy : dict measurement :=
  [ ("x", (Int 1, "")); ("y", (Int 5, ""));
    ("delta_x", (Float (1 # 2), "")); ("delta_y", (Float (1 # 4), "")) ].

(** A mapping whose values are all zero. *)
Definition values_zero : dict measurement :=
  [ ("x", (Int 0, "\metre")); ("delta_x", (Float 0, "\metre")) ].

(** [errorcalc.Error(shadowed)]. *)
Definition error_shadowed : Error :=
  {| variables := ["x"; "x_1"]; error_symbols := ["delta_x"; "delta_x_1"];
     f := PyExpr (Sym "x"); derivatives := [("x", one); ("x_1", zero)] |}.



(** [g = sym.Symbol('g')] at module level and [def scaled(x): return x * g]:
    the body mentions a symbol that is not a parameter. *)
Definition scaled : callable :=
  {| getfullargspec := positional ["x"];
     body := PyExpr (Mul (Sym "x") (Sym "g")) |}.

(** [errorcalc.Error(scaled)]. *)
Definition error_scaled : Error :=
  {| variables := ["x"]; error_symbols := ["delta_x"];
     f := PyExpr (Mul (Sym "x") (Sym "g"));
     derivatives := [("x", diff "x" (Mul (Sym "x") (Sym "g")))] |}.

(** Two mappings that agree on ["x"] and ["delta_x"] and differ under the
    further key ["g"]. *)
Definition values_g2 : dict measurement :=
  [ ("x", (Int 1, "")); ("delta_x", (Float (1 # 2), "")); ("g", (Int 2, "")) ].

Definition values_g3 : dict measurement :=
  [ ("x", (Int 1, "")); ("delta_x", (Float (1 # 2), "")); ("g", (Int 3, "")) ].

(** The measurement point of test_error.py with whole-number uncertainties. *)
Definition values1_int : dict measurement :=
  [ ("a", (Int 1, "\volt")); ("b", (Int 2, ""));
    ("delta_a", (Int 2, "\volt")); ("delta_b", (Int 3, "")) ].

(** The number is a Python [int]: the algebra system computes with it
    exactly. *)
Definition exact_number (n : number) : bool :=
  match n with
  | Int _ => true
  | Float _ => false
  end.

(** Every number in the expression is exact. *)
Fixpoint exact_expr (e : expr) : bool :=
  match e with
  | Sym _ => true
  | Num n => exact_number n
  | Add u v | Sub u v | Mul u v | Div u v | Pow u v =>
      exact_expr u && exact_expr v
  | Neg u | Sin u | Cos u | Sqrt u | Ln u | Abs u => exact_expr u
  end.

(** Every value of the mapping is exact. *)
Definition exact_inputs (values : dict measurement) : bool :=
  forallb (fun m => exact_number (fst m)) (dict_values values).

(** [def three(): return 3]: a formula without parameters. *)
Definition three : callable :=
  {| getfullargspec := positional []; body := PyNum (Int 3) |}.

(** [def constant(a): return 3]. *)
Definition constant : callable :=
  {| getfullargspec := positional ["a"]; body := PyNum (Int 3) |}.

(** The measurements of test_error.py without their units. *)
Definition values1_plain : dict number :=
  [ ("a", Int 1); ("b", Int 2);
    ("delta_a", Float (4 # 10)); ("delta_b", Float (5 # 10)) ].

(** The measurements of test_error.py with other units. *)
Definition values1_metres : dict measurement :=
  [ ("a", (Int 1, "\metre"));
    ("b", (Int 2, "\second"));
    ("delta_a", (Float (4 # 10), "\metre"));
    ("delta_b", (Float (5 # 10), "\second")) ].

(* ================================================================== *)
(** ** Auxiliary readings of the methods                               *)
(* ================================================================== *)

(** [error_term] as a function of the derivative map alone. *)
Definition term_of (ds : dict expr) (values : dict measurement)
    (delta_name : string) : exc expr :=
  exc_bind (getitem values delta_name) (fun m =>
  exc_bind (index (split "_" delta_name) 1) (fun name =>
  exc_bind (getitem ds name) (fun derivative =>
    inr (Mul (Num (fst m)) (Abs (subs (value_dict values) derivative)))))).

Fixpoint mapE {A B : Type} (g : A -> exc B) (l : list A) : exc (list B) :=
  match l with
  | [] => inr []
  | a :: l' =>
      exc_bind (g a) (fun b => exc_bind (mapE g l') (fun bs => inr (b :: bs)))
  end.

(** A method that hands the instance back as it received it. *)
Definition readonly {A : Type} (m : M A) : Prop :=
  forall self, snd (m self) = self.

(** No keyword-only parameter lacks a default. *)
Definition no_required_kwonly (func : callable) : bool :=
  forallb (fun k => mem k (keys (kwonlydefaults (getfullargspec func))))
          (kwonlyargs (getfullargspec func)).

(** The body of the formula mentions its own parameters only. *)
Definition well_scoped (func : callable) : Prop :=
  match body func with
  | PyExpr e =>
      forall x, occurs x e = true -> In x (args (getfullargspec func))
  | PyNum _ => True
  end.

(** The part of a name before its first underscore. *)
Definition first_segment (name : string) : string :=
  hd EmptyString (split "_" name).

(** [e], read as a function of the symbol [x] alone, has a value at every
    point near [t] and the derivative [d] at [t]. *)
Definition has_deriv (rho : env) (x : string) (e : expr) (t d : R) : Prop :=
  (exists delta : posreal,
      forall s, (Rabs (s - t) < delta)%R -> eval (upd rho x s) e <> None) /\
  derivable_pt_lim (fun s => eval_total (upd rho x s) e) t d.

(** The differentiation rules as section 4.2 words them, for an operator
    [D] taking the variable and the expression. *)
Definition standard_rules (D : string -> expr -> expr) : Prop :=
  (forall x e, occurs x e = false -> D x e = zero) /\
  (forall x, D x (Sym x) = one) /\
  (forall x u v, occurs x (Add u v) = true ->
     D x (Add u v) = Add (D x u) (D x v)) /\
  (forall x u v, occurs x (Sub u v) = true ->
     D x (Sub u v) = Sub (D x u) (D x v)) /\
  (forall x u v, occurs x (Mul u v) = true ->
     D x (Mul u v) = Add (Mul (D x u) v) (Mul u (D x v))) /\
  (forall x u v, occurs x (Div u v) = true ->
     D x (Div u v) = Div (Sub (Mul (D x u) v) (Mul u (D x v))) (Pow v two)) /\
  (forall x u v, occurs x u = true -> occurs x v = false ->
     D x (Pow u v) = Mul (Mul v (Pow u (Sub v one))) (D x u)) /\
  (forall x u v, occurs x v = true ->
     D x (Pow u v) =
     Mul (Pow u v) (Add (Mul (D x v) (Ln u)) (Div (Mul v (D x u)) u))) /\
  (forall x u, occurs x u = true -> D x (Sin u) = Mul (Cos u) (D x u)) /\
  (forall x u, occurs x u = true ->
     D x (Cos u) = Mul (Neg (Sin u)) (D x u)) /\
  (forall x u, occurs x u = true ->
     D x (Sqrt u) = Div (D x u) (Mul two (Sqrt u))).

(** The linear law over a list of (uncertainty, derivative value). *)
Fixpoint linear_sum (acc : R) (l : list (R * R)) : R :=
  match l with
  | [] => acc
  | (delta, d) :: l' => linear_sum (acc + delta * Rabs d)%R l'
  end.

(* ================================================================== *)
(** ** Ordered dicts                                                   *)
(* ================================================================== *)

Section DictFacts.

Context {V : Type}.

Lemma dict_get_set_same (k : string) (v : V) (d : dict V) :
  dict_get (dict_set k v d) k = Some v.
Proof.
  induction d as [|[k' v'] d IH]; simpl.
  - now rewrite String.eqb_refl.
  - destruct (String.eqb k k') eqn:E; simpl; rewrite E; auto.
Qed.

Lemma dict_get_set_other (k k0 : string) (v : V) (d : dict V) :
  k0 <> k -> dict_get (dict_set k v d) k0 = dict_get d k0.
Proof.
  intros Hne.
  induction d as [|[k' v'] d IH]; simpl.
  - apply String.eqb_neq in Hne. now rewrite Hne.
  - destruct (String.eqb k k') eqn:E; simpl.
    + apply String.eqb_eq in E. subst k'.
      apply String.eqb_neq in Hne. now rewrite Hne.
    + destruct (String.eqb k0 k'); auto.
Qed.

Lemma keys_set_present (k : string) (v : V) (d : dict V) :
  In k (keys d) -> keys (dict_set k v d) = keys d.
Proof.
  induction d as [|[k' v'] d IH]; simpl; intros Hin.
  - contradiction.
  - destruct (String.eqb k k') eqn:E; simpl; auto.
    f_equal. apply IH. destruct Hin as [Heq|Hin]; auto.
    subst k'. rewrite String.eqb_refl in E. discriminate.
Qed.

Lemma keys_set_absent (k : string) (v : V) (d : dict V) :
  ~ In k (keys d) -> keys (dict_set k v d) = (keys d ++ [k])%list.
Proof.
  induction d as [|[k' v'] d IH]; simpl; intros Hnin.
  - reflexivity.
  - destruct (String.eqb k k') eqn:E; simpl.
    + apply String.eqb_eq in E. subst k'. exfalso. apply Hnin. now left.
    + f_equal. apply IH. intros Hin. apply Hnin. now right.
Qed.

Lemma dict_get_None_keys (d : dict V) (k : string) :
  dict_get d k = None <-> ~ In k (keys d).
Proof.
  induction d as [|[k' v'] d IH]; simpl.
  - split; auto.
  - destruct (String.eqb k k') eqn:E.
    + apply String.eqb_eq in E. subst k'. split; [discriminate|].
      intros H. exfalso. apply H. now left.
    + apply String.eqb_neq in E. rewrite IH. split.
      * intros H [Heq|Hin]; [congruence|auto].
      * intros H Hin. apply H. now right.
Qed.

End DictFacts.

Lemma dict_get_value_dict (values : dict measurement) (k : string) :
  dict_get (value_dict values) k = option_map fst (dict_get values k).
Proof.
  induction values as [|[k' m] values IH]; simpl; auto.
  destruct (String.eqb k k'); auto.
Qed.

(* ================================================================== *)
(** ** Construction                                                    *)
(* ================================================================== *)

(** The derivative map the loop of [__init__] builds for body [e]. *)
Lemma init_loop_expr (e : expr) (vars : list string)
    (acc : dict expr * list string) :
  init_loop (PyExpr e) vars acc =
  inr (fold_left (fun d v => dict_set v (diff v e) d) vars (fst acc),
       (snd acc ++ vars)%list).
Proof.
  revert acc. induction vars as [|v vars IH]; intros [d tr]; simpl.
  - now rewrite app_nil_r.
  - rewrite IH. simpl. now rewrite <- app_assoc.
Qed.

Lemma init_loop_number (n : number) (vars : list string)
    (acc : dict expr * list string) (r : dict expr * list string) :
  init_loop (PyNum n) vars acc = inr r -> vars = [] /\ r = acc.
Proof.
  destruct vars; simpl; intros H.
  - split; congruence.
  - discriminate.
Qed.

Lemma fold_set_get (e : expr) (vars : list string) (d : dict expr)
    (k : string) :
  dict_get (fold_left (fun d v => dict_set v (diff v e) d) vars d) k =
  if mem k vars then Some (diff k e) else dict_get d k.
Proof.
  revert d. induction vars as [|v vars IH]; intros d; simpl; auto.
  rewrite IH. unfold mem in *.
  destruct (existsb (String.eqb k) vars) eqn:Ex.
  - now rewrite orb_true_r.
  - rewrite orb_false_r. destruct (String.eqb k v) eqn:E.
    + apply String.eqb_eq in E. subst v. apply dict_get_set_same.
    + apply String.eqb_neq in E. now apply dict_get_set_other.
Qed.

Lemma mem_In (k : string) (l : list string) : mem k l = true <-> In k l.
Proof.
  unfold mem. rewrite existsb_exists. split.
  - intros [x [Hin E]]. apply String.eqb_eq in E. now subst.
  - intros Hin. exists k. split; auto. apply String.eqb_refl.
Qed.

Lemma fold_set_keys (e : expr) (vars : list string) (d : dict expr) :
  NoDup vars -> (forall v, In v vars -> ~ In v (keys d)) ->
  keys (fold_left (fun d v => dict_set v (diff v e) d) vars d) =
  (keys d ++ vars)%list.
Proof.
  revert d. induction vars as [|v vars IH]; intros d Hnd Hfresh; simpl.
  - now rewrite app_nil_r.
  - inversion Hnd as [|? ? Hv Hnd']; subst.
    rewrite IH; auto.
    + rewrite keys_set_absent by (apply Hfresh; now left).
      now rewrite <- app_assoc.
    + intros w Hw. rewrite keys_set_absent by (apply Hfresh; now left).
      rewrite in_app_iff. intros [Hin|[Heq|[]]].
      * apply (Hfresh w); auto. now right.
      * subst w. contradiction.
Qed.

(** What a successful construction leaves in the instance. *)
Lemma init_inr (func : callable) (self : Error) :
  init func = inr self ->
  variables self = args (getfullargspec func) /\
  error_symbols self =
    map (fun v => "delta_" ++ v) (args (getfullargspec func)) /\
  f self = body func /\
  derivatives self =
    match body func with
    | PyExpr e =>
        fold_left (fun d v => dict_set v (diff v e) d)
                  (args (getfullargspec func)) []
    | PyNum _ => []
    end /\
  (forall n, body func = PyNum n -> args (getfullargspec func) = []).
Proof.
  unfold init, init_traced, call_with_symbols.
  destruct (find _ _); simpl; [discriminate|].
  destruct (body func) as [n|e] eqn:Hb.
  - destruct (init_loop (PyNum n) _ _) as [err|r] eqn:Hl; simpl; [discriminate|].
    apply init_loop_number in Hl. destruct Hl as [Hargs Hr]. subst r.
    intros H. injection H as <-. simpl. repeat split; auto.
  - rewrite init_loop_expr. simpl.
    intros H. injection H as <-. simpl. repeat split; auto.
    intros n Hn. discriminate.
Qed.

(** Every declared variable has its entry, the structural derivative. *)
Lemma init_derivative_entry (func : callable) (self : Error) (v : string) :
  init func = inr self -> In v (args (getfullargspec func)) ->
  exists e, body func = PyExpr e /\
            dict_get (derivatives self) v = Some (diff v e).
Proof.
  intros Hi Hin. destruct (init_inr _ _ Hi) as (_ & _ & _ & Hd & Hn).
  destruct (body func) as [n|e].
  - rewrite (Hn n eq_refl) in Hin. contradiction.
  - exists e. split; auto. rewrite Hd, fold_set_get.
    apply mem_In in Hin. now rewrite Hin.
Qed.

(** Every entry of the map is the derivative with respect to its key. *)
Lemma init_derivative_lookup (func : callable) (self : Error)
    (k : string) (d : expr) :
  init func = inr self -> dict_get (derivatives self) k = Some d ->
  exists e, body func = PyExpr e /\ d = diff k e /\
            In k (args (getfullargspec func)).
Proof.
  intros Hi Hg. destruct (init_inr _ _ Hi) as (_ & _ & _ & Hd & _).
  rewrite Hd in Hg. destruct (body func) as [n|e].
  - discriminate.
  - exists e. rewrite fold_set_get in Hg.
    destruct (mem k (args (getfullargspec func))) eqn:Hm.
    + apply mem_In in Hm. split; auto. split; congruence.
    + discriminate.
Qed.

(* ================================================================== *)
(** ** Methods leave the instance as it is                             *)
(* ================================================================== *)

Lemma readonly_ret {A : Type} (a : A) : readonly (ret a).
Proof. now intros self. Qed.

Lemma readonly_attr {A : Type} (field : Error -> A) : readonly (attr field).
Proof. now intros self. Qed.

Lemma readonly_lift {A : Type} (c : exc A) : readonly (lift c).
Proof. now intros self. Qed.

Lemma readonly_bind {A B : Type} (m : M A) (k : A -> M B) :
  readonly m -> (forall a, readonly (k a)) -> readonly (bind m k).
Proof.
  intros Hm Hk self. unfold bind.
  specialize (Hm self). destruct (m self) as [[e|a] self']; simpl in *.
  - exact Hm.
  - subst self'. apply Hk.
Qed.

Lemma readonly_mapM {A B : Type} (g : A -> M B) (l : list A) :
  (forall a, readonly (g a)) -> readonly (mapM g l).
Proof.
  intros Hg. induction l as [|a l IH]; simpl.
  - apply readonly_ret.
  - apply readonly_bind; auto. intros b.
    apply readonly_bind; auto. intros bs. apply readonly_ret.
Qed.

Ltac readonly_steps :=
  repeat first
    [ apply readonly_ret | apply readonly_attr | apply readonly_lift
    | apply readonly_mapM; intro
    | apply readonly_bind; [|intro] ].

Lemma readonly_error_term (values : dict measurement) (delta_name : string) :
  readonly (error_term values delta_name).
Proof. unfold error_term. readonly_steps. Qed.

Lemma readonly_result (values : dict measurement) : readonly (result values).
Proof.
  unfold result. readonly_steps.
Qed.

Section RenderingFacts.

Variable latex : expr -> string.
Variable str_num : number -> string.
Variable float_of : expr -> exc number.

Lemma readonly_substitute (values : dict measurement) :
  readonly (substitute latex str_num values).
Proof. unfold substitute, substitute_term. readonly_steps. Qed.

Lemma readonly_latex_out (values : dict measurement) :
  readonly (latex_out latex str_num float_of values).
Proof.
  unfold latex_out. readonly_steps.
Qed.

End RenderingFacts.

(** *** The methods as functions of the derivative map *)

Lemma error_term_run (values : dict measurement) (delta_name : string)
    (self : Error) :
  error_term values delta_name self =
  (term_of (derivatives self) values delta_name, self).
Proof.
  unfold error_term, term_of, bind, lift, attr, ret.
  destruct (getitem values delta_name); simpl; auto.
  destruct (index _ 1); simpl; auto.
  destruct (getitem (derivatives self) s); simpl; auto.
Qed.

Lemma mapM_run {A B : Type} (g : A -> M B) (h : Error -> A -> exc B)
    (l : list A) (self : Error) :
  (forall a, g a self = (h self a, self)) ->
  mapM g l self = (mapE (h self) l, self).
Proof.
  intros Hg. induction l as [|a l IH]; simpl; auto.
  unfold bind. rewrite Hg. destruct (h self a); simpl; auto.
  fold (@mapM A B g). rewrite IH. destruct (mapE (h self) l); simpl; auto.
Qed.

Lemma result_run (values : dict measurement) (self : Error) :
  result values self =
  (exc_bind (mapE (term_of (derivatives self) values) (error_symbols self))
            (fun terms => inr (sum terms)),
   self).
Proof.
  unfold result, bind, attr. simpl.
  rewrite (mapM_run _ (fun s => term_of (derivatives s) values)).
  - destruct (mapE _ _); reflexivity.
  - intros a. apply error_term_run.
Qed.

Lemma init_diff_calls (func : callable) (self : Error) :
  init func = inr self -> diff_calls func = args (getfullargspec func).
Proof.
  unfold diff_calls, init, init_traced, call_with_symbols.
  destruct (find _ _); simpl; [discriminate|].
  destruct (body func) as [n|e].
  - destruct (init_loop (PyNum n) _ _) as [err|r] eqn:Hl; simpl; [discriminate|].
    apply init_loop_number in Hl. destruct Hl as [Hargs Hr]. subst r.
    now rewrite Hargs.
  - rewrite init_loop_expr. reflexivity.
Qed.

(* ================================================================== *)
(** ** The derivative map and its keys                                 *)
(* ================================================================== *)

(** C4: after construction the keys of the derivative map are exactly the
    declared variable names, in declaration order and without duplicates;
    [diff] is called once per variable, during construction; [result],
    [substitute] and [latex_out] hand the instance back unchanged, so the
    map is never mutated or recomputed afterwards.  (Parameter names of a
    Python function are pairwise distinct.) *)
Theorem derivative_map_keys (func : callable) (self : Error) :
  NoDup (args (getfullargspec func)) ->
  init func = inr self ->
  keys (derivatives self) = args (getfullargspec func) /\
  keys (derivatives self) = variables self /\
  NoDup (keys (derivatives self)) /\
  diff_calls func = args (getfullargspec func) /\
  forall (latex : expr -> string) (str_num : number -> string)
         (float_of : expr -> exc number) (values : dict measurement),
    snd (result values self) = self /\
    snd (substitute latex str_num values self) = self /\
    snd (latex_out latex str_num float_of values self) = self.
Proof.
  intros Hnd Hi.
  destruct (init_inr _ _ Hi) as (Hv & _ & _ & Hd & Hn).
  assert (Hk : keys (derivatives self) = args (getfullargspec func)).
  { rewrite Hd. destruct (body func) as [n|e].
    - now rewrite (Hn n eq_refl).
    - rewrite fold_set_keys; auto. }
  repeat split.
  - exact Hk.
  - now rewrite Hk, Hv.
  - now rewrite Hk.
  - now apply init_diff_calls with self.
  - apply readonly_result.
  - apply readonly_substitute.
  - apply readonly_latex_out.
Qed.

Lemma derivative_map_keys_witness :
  NoDup (args (getfullargspec my_function1)) /\
  init my_function1 = inr error1 /\
  keys (derivatives error1) = ["a"; "b"].
Proof.
  assert (Hnd : NoDup (args (getfullargspec my_function1))).
  { simpl. repeat constructor; simpl; intuition discriminate. }
  split; [exact Hnd|]. split; [reflexivity|].
  exact (proj1 (derivative_map_keys my_function1 error1 Hnd eq_refl)).
Defined.

(* ================================================================== *)
(** ** Repeated evaluation                                             *)
(* ================================================================== *)

(** C8: evaluating the same instance twice with the same mapping gives the
    same outcome of [result] both times and the same outcome of
    [latex_out] both times, the second call running on the instance the
    first one handed back. *)
Theorem evaluation_idempotent
    (latex : expr -> string) (str_num : number -> string)
    (float_of : expr -> exc number)
    (values : dict measurement) (self : Error) :
  fst (result values (snd (result values self))) = fst (result values self) /\
  fst (latex_out latex str_num float_of values
         (snd (latex_out latex str_num float_of values self))) =
  fst (latex_out latex str_num float_of values self).
Proof.
  split.
  - now rewrite readonly_result.
  - now rewrite readonly_latex_out.
Qed.

(* ================================================================== *)
(** ** Substitution and free symbols                                   *)
(* ================================================================== *)

Lemma diff_unfold (x : string) (e : expr) :
  diff x e =
  if negb (occurs x e) then zero
  else
    match e with
    | Sym _ => one
    | Num _ => zero
    | Add u v => Add (diff x u) (diff x v)
    | Sub u v => Sub (diff x u) (diff x v)
    | Mul u v => Add (Mul (diff x u) v) (Mul u (diff x v))
    | Div u v =>
        Div (Sub (Mul (diff x u) v) (Mul u (diff x v))) (Pow v two)
    | Pow u v =>
        if negb (occurs x v)
        then Mul (Mul v (Pow u (Sub v one))) (diff x u)
        else Mul (Pow u v)
                 (Add (Mul (diff x v) (Ln u)) (Div (Mul v (diff x u)) u))
    | Neg u => Neg (diff x u)
    | Sin u => Mul (Cos u) (diff x u)
    | Cos u => Mul (Neg (Sin u)) (diff x u)
    | Sqrt u => Div (diff x u) (Mul two (Sqrt u))
    | Ln u => Div (diff x u) u
    | Abs u => Div (Mul u (diff x u)) (Abs u)
    end.
Proof. destruct e; reflexivity. Qed.

Lemma diff_unrelated (x : string) (e : expr) :
  occurs x e = false -> diff x e = zero.
Proof. intros H. rewrite diff_unfold, H. reflexivity. Qed.

(** Differentiation introduces no symbol. *)
Lemma occurs_diff (x y : string) (e : expr) :
  occurs y (diff x e) = true -> occurs y e = true.
Proof.
  induction e; rewrite diff_unfold;
    match goal with |- context [negb (occurs x ?t)] =>
      destruct (occurs x t) eqn:Hx end;
    cbn [negb]; try (simpl; discriminate).
  all: try (destruct (occurs x e2) eqn:Hx2; cbn [negb]).
  all: simpl; rewrite ?orb_true_iff, ?orb_false_r; intros H;
    repeat match goal with
           | H : _ \/ _ |- _ => destruct H
           end; auto; try discriminate.
Qed.

Lemma subs_agree (d1 d2 : dict number) (e : expr) :
  (forall y, occurs y e = true -> dict_get d1 y = dict_get d2 y) ->
  subs d1 e = subs d2 e.
Proof.
  induction e; simpl; intros H; auto;
    try (rewrite IHe1, IHe2; auto; intros y Hy; apply H; rewrite Hy;
         auto using orb_true_r);
    try (rewrite IHe; auto).
  rewrite (H name); auto. apply String.eqb_refl.
Qed.

(** *** Names of uncertainty entries *)

Lemma split_nonempty (sep : ascii) (s : string) : split sep s <> [].
Proof.
  destruct s as [|c s]; simpl; [discriminate|].
  destruct (Ascii.eqb c sep); [discriminate|].
  destruct (split sep s); discriminate.
Qed.

(** The name [result] looks up in the derivative map for the uncertainty
    entry of [v] is the part of [v] before its first underscore. *)
Lemma index_delta_name (v : string) :
  index (split "_" ("delta_" ++ v)) 1 = inr (first_segment v).
Proof.
  unfold first_segment. simpl.
  destruct (split "_" v) eqn:E.
  - now apply split_nonempty in E.
  - reflexivity.
Qed.

Lemma term_of_delta (ds : dict expr) (values : dict measurement) (v : string) :
  term_of ds values ("delta_" ++ v) =
  exc_bind (getitem values ("delta_" ++ v)) (fun m =>
  exc_bind (getitem ds (first_segment v)) (fun derivative =>
    inr (Mul (Num (fst m)) (Abs (subs (value_dict values) derivative))))).
Proof.
  unfold term_of. rewrite index_delta_name.
  destruct (getitem values _); reflexivity.
Qed.

Lemma mapE_ext {A B : Type} (g h : A -> exc B) (l : list A) :
  (forall a, In a l -> g a = h a) -> mapE g l = mapE h l.
Proof.
  induction l as [|a l IH]; simpl; intros H; auto.
  rewrite H by now left. rewrite IH; auto.
Qed.

(* ================================================================== *)
(** ** Keys the result depends on                                      *)
(* ================================================================== *)

(** C10, as the code has it: for a formula whose body mentions its own
    parameters only, two mappings that agree on the entry of every
    declared variable and on the entry of every ['delta_'] name give the
    same outcome of [result]; entries under other keys have no
    influence. *)
Theorem result_ignores_other_keys (func : callable) (self : Error)
    (vals vals' : dict measurement) :
  init func = inr self ->
  well_scoped func ->
  (forall v, In v (variables self) ->
     dict_get vals v = dict_get vals' v /\
     dict_get vals ("delta_" ++ v) = dict_get vals' ("delta_" ++ v)) ->
  fst (result vals self) = fst (result vals' self).
Proof.
  intros Hi Hws Hag.
  destruct (init_inr _ _ Hi) as (Hv & He & _ & _ & _).
  rewrite !result_run. simpl. f_equal.
  rewrite He. apply mapE_ext. intros dn Hdn.
  apply in_map_iff in Hdn. destruct Hdn as [v [<- Hin]].
  rewrite <- Hv in Hin. destruct (Hag v Hin) as [_ Hdelta].
  rewrite !term_of_delta. unfold getitem at 1 3. rewrite Hdelta.
  destruct (dict_get vals' ("delta_" ++ v)) as [m|]; simpl; auto.
  unfold getitem.
  destruct (dict_get (derivatives self) (first_segment v)) as [d|] eqn:Hd;
    simpl; auto.
  destruct (init_derivative_lookup _ _ _ _ Hi Hd) as (e & Hb & -> & _).
  do 3 f_equal. apply subs_agree. intros y Hy.
  apply occurs_diff in Hy.
  unfold well_scoped in Hws. rewrite Hb in Hws.
  rewrite !dict_get_value_dict.
  destruct (Hag y) as [Hval _].
  - rewrite Hv. now apply Hws.
  - now rewrite Hval.
Qed.

Lemma result_ignores_other_keys_witness :
  init my_function1 = inr error1 /\
  well_scoped my_function1 /\
  fst (result values1 error1) =
  fst (result (values1 ++ [("c", (Int 7, "\metre"))])%list error1).
Proof.
  assert (Hws : well_scoped my_function1).
  { unfold well_scoped. simpl. intros x Hx.
    destruct (String.eqb x "a") eqn:Ea.
    - apply String.eqb_eq in Ea. now left.
    - destruct (String.eqb x "b") eqn:Eb.
      + apply String.eqb_eq in Eb. right. now left.
      + discriminate. }
  split; [reflexivity|]. split; [exact Hws|].
  apply (result_ignores_other_keys my_function1 error1 values1 _ eq_refl Hws).
  simpl. intros v [<-|[<-|[]]]; split; reflexivity.
Defined.

(* ================================================================== *)
(** ** Evaluation of the summed terms                                  *)
(* ================================================================== *)

(** Evaluating a substituted expression is evaluating the expression
    under the assignment of the substitution. *)
Lemma eval_subs (d : dict number) (e : expr) :
  eval empty_env (subs d e) = eval (env_of d) e.
Proof.
  induction e; simpl; rewrite ?IHe1, ?IHe2, ?IHe; auto.
  unfold env_of. destruct (dict_get d name); reflexivity.
Qed.

Lemma Q2R_int (z : Z) : Q2R (inject_Z z) = IZR z.
Proof. unfold Q2R. simpl. lra. Qed.

Lemma value_of_sum_from (terms : list expr) (vals : list (R * R))
    (acc : expr) (a : R) :
  value_of acc = Some a ->
  Forall2 (fun t p => value_of t = Some (fst p * Rabs (snd p))%R) terms vals ->
  value_of (fold_left Add terms acc) = Some (linear_sum a vals).
Proof.
  intros Ha H. revert acc a Ha.
  induction H as [|t [delta dv] terms vals Ht _ IH]; intros acc a Ha; simpl.
  - exact Ha.
  - apply IH. unfold value_of in *. simpl. rewrite Ha, Ht. reflexivity.
Qed.

(** The linear law, for parameter names without an underscore: when every
    uncertainty entry is present and every derivative has a value at the
    measurement point, [result] returns the sum, in declaration order, of
    uncertainty times the absolute value of the derivative. *)
Lemma result_linear_law (func : callable) (self : Error) (e : expr)
    (values : dict measurement) (unc : string -> number) (dval : string -> R) :
  init func = inr self ->
  body func = PyExpr e ->
  (forall v, In v (variables self) -> first_segment v = v) ->
  (forall v, In v (variables self) ->
     exists unit, dict_get values ("delta_" ++ v) = Some (unc v, unit)) ->
  (forall v, In v (variables self) ->
     eval (env_of (value_dict values)) (diff v e) = Some (dval v)) ->
  exists t, result values self = (inr t, self) /\
            value_of t =
            Some (linear_sum 0
                    (map (fun v => (Q2R (num_val (unc v)), dval v))
                         (variables self))).
Proof.
  intros Hi Hb Hseg Hunc Hval.
  destruct (init_inr _ _ Hi) as (Hv & He & _ & _ & _).
  rewrite result_run, He, <- Hv.
  assert (Hterms :
    forall l, incl l (variables self) ->
      mapE (term_of (derivatives self) values)
           (map (fun v => "delta_" ++ v) l) =
      inr (map (fun v => Mul (Num (unc v))
                             (Abs (subs (value_dict values) (diff v e)))) l)).
  { induction l as [|v l IH]; intros Hl; cbn [map mapE]; auto.
    assert (Hin : In v (variables self)) by (apply Hl; now left).
    rewrite term_of_delta. destruct (Hunc v Hin) as [unit Hu].
    unfold getitem. rewrite Hu. cbn [exc_bind fst]. rewrite (Hseg v Hin).
    rewrite Hv in Hin.
    destruct (init_derivative_entry _ _ _ Hi Hin) as (e' & Hb' & Hd).
    rewrite Hb in Hb'. injection Hb' as <-. rewrite Hd. cbn [exc_bind].
    rewrite IH; auto. intros w Hw. apply Hl. now right. }
  rewrite Hterms by apply incl_refl. cbn [exc_bind].
  eexists. split; [reflexivity|].
  apply value_of_sum_from.
  - unfold value_of. simpl. rewrite Q2R_int. reflexivity.
  - assert (Hall : forall l, incl l (variables self) ->
      Forall2 (fun t p => value_of t = Some (fst p * Rabs (snd p))%R)
        (map (fun v => Mul (Num (unc v))
                           (Abs (subs (value_dict values) (diff v e)))) l)
        (map (fun v => (Q2R (num_val (unc v)), dval v)) l)).
    { induction l as [|v l IH]; intros Hl; simpl; constructor.
      - unfold value_of. simpl. rewrite eval_subs, Hval; auto.
        apply Hl. now left.
      - apply IH. intros w Hw. apply Hl. now right. }
    apply Hall, incl_refl.
Qed.

(** The term of a parameter that is absent from the body, when its name
    has no underscore: its derivative is [0] and so is its value,
    whatever uncertainty is supplied. *)
Lemma unused_parameter_term (func : callable) (self : Error) (e : expr)
    (values : dict measurement) (v : string) (m : measurement) :
  init func = inr self ->
  body func = PyExpr e ->
  In v (variables self) ->
  occurs v e = false ->
  first_segment v = v ->
  dict_get values ("delta_" ++ v) = Some m ->
  dict_get (derivatives self) v = Some zero /\
  term_of (derivatives self) values ("delta_" ++ v) =
    inr (Mul (Num (fst m)) (Abs zero)) /\
  value_of (Mul (Num (fst m)) (Abs zero)) = Some 0%R.
Proof.
  intros Hi Hb Hin Hocc Hseg Hm.
  destruct (init_inr _ _ Hi) as (Hv & _).
  rewrite Hv in Hin.
  destruct (init_derivative_entry _ _ _ Hi Hin) as (e' & Hb' & Hd).
  rewrite Hb in Hb'. injection Hb' as <-.
  rewrite (diff_unrelated _ _ Hocc) in Hd.
  split; [exact Hd|]. split.
  - rewrite term_of_delta. unfold getitem. rewrite Hm. cbn [exc_bind].
    rewrite Hseg, Hd. reflexivity.
  - unfold value_of. simpl. rewrite Q2R_int, Rabs_R0. f_equal. lra.
Qed.

(* ================================================================== *)
(** ** Missing entries of the measurement mapping                      *)
(* ================================================================== *)


Section MissingEntries.

Variable latex : expr -> string.
Variable str_num : number -> string.
Variable float_of : expr -> exc number.

Lemma substitute_term_run (values : dict measurement) (v : string)
    (self : Error) :
  substitute_term latex str_num values v self =
  (exc_bind (getitem (derivatives self) v) (fun derivative =>
   exc_bind (getitem values ("delta_" ++ v)) (fun m =>
     inr (str_num (fst m) ++ " \cdot \left|"
            ++ latex (subs (value_dict values) derivative) ++ "\right|"))),
   self).
Proof.
  unfold substitute_term, bind, lift, attr, ret.
  destruct (getitem (derivatives self) v); cbn [exc_bind]; auto.
  destruct (getitem values _); reflexivity.
Qed.

Lemma substitute_run (values : dict measurement) (self : Error) :
  substitute latex str_num values self =
  (exc_bind
     (mapE (fun v =>
              exc_bind (getitem (derivatives self) v) (fun derivative =>
              exc_bind (getitem values ("delta_" ++ v)) (fun m =>
                inr (str_num (fst m) ++ " \cdot \left|"
                       ++ latex (subs (value_dict values) derivative)
                       ++ "\right|"))))
           (variables self))
     (fun derivatives_sub => inr (join " + " derivatives_sub)),
   self).
Proof.
  unfold substitute, bind, attr. cbn [fst snd].
  rewrite (mapM_run _ (fun s v =>
    exc_bind (getitem (derivatives s) v) (fun derivative =>
    exc_bind (getitem values ("delta_" ++ v)) (fun m =>
      inr (str_num (fst m) ++ " \cdot \left|"
             ++ latex (subs (value_dict values) derivative)
             ++ "\right|"))))).
  - destruct (mapE _ _); reflexivity.
  - intros a. apply substitute_term_run.
Qed.



End MissingEntries.


(* ================================================================== *)
(** ** Parameter names with an underscore                              *)
(* ================================================================== *)

(** C2 at [def underscored(x_1): return x_1] with the complete mapping
    [values_underscored]: the derivative map is looked up under ["x"],
    the part of the name before its underscore, and [result] raises
    [KeyError] where the linear law gives [0.5 * |1|]. *)
Theorem result_underscored_KeyError :
  exists self,
    init underscored = inr self /\
    dict_get values_underscored "x_1" = Some (Int 1, "") /\
    dict_get values_underscored "delta_x_1" = Some (Float (1 # 2), "") /\
    dict_get (derivatives self) "x_1" = Some one /\
    result values_underscored self = (inl (KeyError "x"), self).
Proof.
  eexists. split; [reflexivity|]. repeat split; reflexivity.
Qed.

(** C7 at [def shadowed(x, x_1): return x] with the complete mapping
    [values_shadowed]: the unused parameter [x_1] has the cached
    derivative [0], yet its term is built from the derivative stored
    under ["x"] and contributes [0.25 * |1|]; the aggregate is [0.75]
    where the claim gives [0.5]. *)
Theorem unused_underscored_parameter_contributes :
  exists self,
    init shadowed = inr self /\
    occurs "x_1" (Sym "x") = false /\
    dict_get (derivatives self) "x_1" = Some zero /\
    term_of (derivatives self) values_shadowed "delta_x_1" =
      inr (Mul (Num (Float (1 # 4))) (Abs one)) /\
    value_of (Mul (Num (Float (1 # 4))) (Abs one)) = Some (1 / 4)%R /\
    exists t, result values_shadowed self = (inr t, self) /\
              value_of t = Some (3 / 4)%R.
Proof.
  eexists. split; [reflexivity|]. split; [reflexivity|].
  split; [reflexivity|]. split; [reflexivity|]. split.
  - unfold value_of. cbn [eval opt_bind one num_val]. rewrite Q2R_int.
    rewrite Rabs_R1. f_equal. unfold Q2R. cbn [Qnum Qden]. lra.
  - exists (Add (Add zero (Mul (Num (Float (1 # 2))) (Abs one)))
                (Mul (Num (Float (1 # 4))) (Abs one))).
    split; [reflexivity|].
    unfold value_of. cbn [eval opt_bind zero one num_val]. rewrite !Q2R_int.
    rewrite Rabs_R1. f_equal. unfold Q2R. cbn [Qnum Qden]. lra.
Qed.

(* ================================================================== *)
(** ** Signatures                                                      *)
(* ================================================================== *)

Lemma find_negb_forallb {A : Type} (p : A -> bool) (l : list A) :
  forallb p l = true -> find (fun a => negb (p a)) l = None.
Proof.
  induction l as [|a l IH]; simpl; auto.
  intros H. apply andb_true_iff in H. destruct H as [Ha Hl].
  rewrite Ha. simpl. auto.
Qed.


(* ================================================================== *)
(** ** Powers                                                          *)
(* ================================================================== *)

Lemma is_int_IZR (k : Z) : is_int (IZR k) = Some k.
Proof.
  unfold is_int.
  assert (H : k = Int_part (IZR k)) by (apply Int_part_spec; lra).
  rewrite <- H. destruct (Req_dec_T (IZR k) (IZR k)); congruence.
Qed.

(** A natural exponent is repeated multiplication, whatever the base. *)
Lemma rpow_nat (x : R) (n : nat) : rpow x (INR n) = Some (x ^ n)%R.
Proof.
  unfold rpow. destruct (Rlt_dec 0 x) as [Hx|Hx].
  - now rewrite Rpower_pow.
  - rewrite INR_IZR_INZ, is_int_IZR.
    assert (H : (0 <=? Z.of_nat n)%Z = true) by (apply Z.leb_le; lia).
    now rewrite H, Nat2Z.id.
Qed.

Lemma rpow_2 (x : R) : rpow x 2 = Some (x ^ 2)%R.
Proof. replace 2%R with (INR 2) by (simpl; lra). apply rpow_nat. Qed.

Lemma rpow_3 (x : R) : rpow x 3 = Some (x ^ 3)%R.
Proof. replace 3%R with (INR 3) by (simpl; lra). apply rpow_nat. Qed.

(* ================================================================== *)
(** ** The scenario of test_error.py                                   *)
(* ================================================================== *)


(* ================================================================== *)
(** ** The rendered block                                              *)
(* ================================================================== *)

Lemma string_app_assoc (s1 s2 s3 : string) :
  (s1 ++ s2) ++ s3 = s1 ++ s2 ++ s3.
Proof. induction s1 as [|c s1 IH]; simpl; congruence. Qed.

Section Block.

Variable latex : expr -> string.
Variable str_num : number -> string.
Variable float_of : expr -> exc number.

(** [latex_out] in terms of [substitute] and [result]: the block is the
    opening line, the generic line, the substituted line, the line of
    the aggregate and the closing lines. *)
Lemma latex_out_run (values : dict measurement) (self : Error) :
  latex_out latex str_num float_of values self =
  (exc_bind (fst (substitute latex str_num values self)) (fun s =>
   exc_bind (fst (result values self)) (fun t =>
   exc_bind (float_of t) (fun r =>
     inr (("\begin{align*}" ++ nl ++ generic_line latex (derivatives self)
             ++ substituted_line
                  (fold_left (annotate str_num) (dict_values values) s))
            ++ result_line str_num r ++ "\end{align*}" ++ nl ++ nl)))),
   self).
Proof.
  unfold latex_out, bind, attr. cbn [fst snd].
  rewrite substitute_run, result_run. cbn [fst snd].
  destruct (exc_bind (mapE _ (variables self)) _) as [err|s];
    cbn [exc_bind]; auto.
  rewrite (mapM_run _ (fun s0 => term_of (derivatives s0) values))
    by (intros a; apply error_term_run).
  destruct (mapE _ (error_symbols self)) as [err|terms];
    cbn [exc_bind]; auto.
  unfold lift. destruct (float_of (sum terms)) as [err|r];
    cbn [exc_bind]; auto.
  unfold ret. do 2 f_equal.
  now rewrite !string_app_assoc.
Qed.

(** C9, as the code has it: [latex_out] takes no precision.  The block
    it returns is, in this order: the opening line, the generic line, the
    substituted line, the third line ["    &= \SI{" ++ text ++ "}{}"],
    where [text] is the plain text of [float(result)] as an f-string
    gives it, and the closing lines. *)
Theorem latex_out_result_line (values : dict measurement) (self : Error)
    (block : string) :
  fst (latex_out latex str_num float_of values self) = inr block ->
  exists s t r,
    fst (substitute latex str_num values self) = inr s /\
    fst (result values self) = inr t /\
    float_of t = inr r /\
    block =
      ("\begin{align*}" ++ nl)
        ++ generic_line latex (derivatives self)
        ++ substituted_line
             (fold_left (annotate str_num) (dict_values values) s)
        ++ ("    &= \SI{" ++ str_num r ++ "}{}" ++ nl)
        ++ ("\end{align*}" ++ nl ++ nl).
Proof.
  rewrite latex_out_run. cbn [fst].
  destruct (fst (substitute latex str_num values self)) as [err|s];
    cbn [exc_bind]; [discriminate|].
  destruct (fst (result values self)) as [err|t];
    cbn [exc_bind]; [discriminate|].
  destruct (float_of t) as [err|r] eqn:Hr; cbn [exc_bind]; [discriminate|].
  intros H. exists s, t, r.
  split; [reflexivity|]. split; [reflexivity|]. split; [exact Hr|].
  assert (Hinj : forall a b : string, inr a = inr b :> exc string -> a = b)
    by (intros a b E; congruence).
  symmetry. apply Hinj. rewrite <- H. f_equal.
  unfold result_line. rewrite !string_app_assoc. reflexivity.
Qed.

End Block.

Lemma latex_out_result_line_witness :
  exists block,
    fst (latex_out (fun _ => "X") py_str float_exact values1 error1) =
      inr block /\
    exists s t r,
      fst (substitute (fun _ => "X") py_str values1 error1) = inr s /\
      fst (result values1 error1) = inr t /\
      float_exact t = inr r /\
      block =
        ("\begin{align*}" ++ nl)
          ++ generic_line (fun _ => "X") (derivatives error1)
          ++ substituted_line
               (fold_left (annotate py_str) (dict_values values1) s)
          ++ ("    &= \SI{" ++ py_str r ++ "}{}" ++ nl)
          ++ ("\end{align*}" ++ nl ++ nl).
Proof.
  eexists. split; [vm_compute; reflexivity|].
  apply (latex_out_result_line (fun _ => "X") py_str float_exact
           values1 error1).
  vm_compute. reflexivity.
Defined.

(** C9, as stated, fails: at the measurements of test_error.py the
    aggregate [9.6] is rendered as ["9.6"], with one digit after the
    decimal point, whatever typesetter of expressions is used. *)
Lemma result_line_not_six_digits :
  (forall latex : expr -> string,
      exists pre,
        fst (latex_out latex py_str float_exact values1 error1) =
        inr (pre ++ ("    &= \SI{9.6}{}" ++ nl) ++ "\end{align*}" ++ nl ++ nl)) /\
  digits_after_point "    &= \SI{9.6}{}" = Some 1%nat /\
  digits_after_point "    &= \SI{9.6}{}" <> Some 6%nat.
Proof.
  split; [|split; [reflexivity|discriminate]].
  intros latex. rewrite latex_out_run. cbn [fst].
  assert (Hs : exists s, fst (substitute latex py_str values1 error1) = inr s)
    by (eexists; vm_compute; reflexivity).
  assert (Ht : exists t, fst (result values1 error1) = inr t /\
                         float_exact t = inr (Float (48 # 5)))
    by (eexists; split; vm_compute; reflexivity).
  destruct Hs as [s ->]. destruct Ht as [t [Ht Hr]].
  rewrite Ht. cbn [exc_bind]. rewrite Hr. cbn [exc_bind].
  exists ("\begin{align*}" ++ nl ++ generic_line latex (derivatives error1)
            ++ substituted_line
                 (fold_left (annotate py_str) (dict_values values1) s)).
  reflexivity.
Qed.

(* ================================================================== *)
(** ** Differentiation is sound                                        *)
(* ================================================================== *)

Local Open Scope R_scope.

Lemma opt_bind_Some {A B : Type} (m : option A) (k : A -> option B) (b : B) :
  opt_bind m k = Some b -> exists a, m = Some a /\ k a = Some b.
Proof. destruct m as [a|]; simpl; [eauto|discriminate]. Qed.

(** A derivative carries over to a function that agrees near the point. *)
Lemma deriv_near (g h : R -> R) (t d : R) (delta : posreal) :
  (forall s, Rabs (s - t) < delta -> h s = g s)%R ->
  derivable_pt_lim g t d -> derivable_pt_lim h t d.
Proof.
  intros Hgh Hg.
  apply derivable_pt_lim_locally_ext with (f := g)
    (a := (t - delta)%R) (b := (t + delta)%R); auto.
  - destruct delta as [dl Hdl]; simpl; lra.
  - intros z Hz. symmetry. apply Hgh.
    apply Rabs_def1; lra.
Qed.

(** A function with a derivative at [t] is continuous at [t]. *)
Lemma deriv_continuous (g : R -> R) (t d eps : R) :
  derivable_pt_lim g t d -> (0 < eps)%R ->
  exists delta : posreal,
    forall s, (Rabs (s - t) < delta)%R -> (Rabs (g s - g t) < eps)%R.
Proof.
  intros Hg Heps.
  assert (C : continuity_pt g t).
  { apply derivable_continuous_pt. exists d. exact Hg. }
  destruct (C eps Heps) as [alp [Halp HC]].
  exists (mkposreal alp Halp). intros s Hs. simpl in Hs.
  destruct (Req_dec t s) as [<-|Hne].
  - replace (g t - g t)%R with 0%R by ring. now rewrite Rabs_R0.
  - apply HC. split; [split; [exact I|exact Hne]|exact Hs].
Qed.

Lemma posreal_min (d1 d2 : posreal) :
  exists d : posreal, (d <= d1)%R /\ (d <= d2)%R.
Proof.
  exists (mkposreal (Rmin d1 d2) (Rmin_pos _ _ (cond_pos d1) (cond_pos d2))).
  simpl. split; [apply Rmin_l|apply Rmin_r].
Qed.

Lemma is_int_Some (c : R) (k : Z) : is_int c = Some k -> c = IZR k.
Proof.
  unfold is_int. destruct (Req_dec_T c (IZR (Int_part c))) as [E|]; [|discriminate].
  intros H. injection H as <-. exact E.
Qed.

(** A power whose exponent is fixed: near the base, [b ** c] is a function
    of [b] whose derivative at [a] is [c * a ** (c - 1)]. *)
Lemma rpow_const_deriv (a c y p : R) :
  rpow a c = Some y -> rpow a (c - 1)%R = Some p ->
  exists (g : R -> R) (eta : R),
    (0 < eta)%R /\
    (forall b, (Rabs (b - a) < eta)%R -> rpow b c = Some (g b)) /\
    derivable_pt_lim g a (c * p)%R.
Proof.
  intros Hy Hp. unfold rpow in Hy.
  destruct (Rlt_dec 0 a) as [Hpos|Hneg].
  - (* positive base *)
    exists (fun b => Rpower b c), a. split; [exact Hpos|]. split.
    + intros b Hb. unfold rpow. destruct (Rlt_dec 0 b) as [_|Hn]; auto.
      exfalso. apply Hn. apply Rabs_def2 in Hb. lra.
    + unfold rpow in Hp. destruct (Rlt_dec 0 a); [|contradiction].
      injection Hp as <-. now apply derivable_pt_lim_power.
  - destruct (is_int c) as [k|] eqn:Hk; [|discriminate].
    apply is_int_Some in Hk. subst c.
    destruct (0 <=? k)%Z eqn:Hk0.
    + (* natural exponent *)
      apply Z.leb_le in Hk0.
      assert (Hc : IZR k = INR (Z.to_nat k)).
      { now rewrite INR_IZR_INZ, Z2Nat.id. }
      rewrite Hc in Hp |- *.
      exists (fun b => b ^ Z.to_nat k)%R, 1%R. split; [lra|]. split.
      * intros b _. apply rpow_nat.
      * destruct (Z.to_nat k) as [|n].
        -- simpl INR. replace (0 * p)%R with (INR 0 * a ^ pred 0)%R
             by (simpl; ring).
           apply derivable_pt_lim_pow.
        -- replace (INR (S n) - 1)%R with (INR n) in Hp
             by (rewrite S_INR; ring).
           rewrite rpow_nat in Hp. injection Hp as <-.
           apply (derivable_pt_lim_pow a (S n)).
    + (* negative integer exponent, nonzero base *)
      apply Z.leb_gt in Hk0.
      destruct (Req_dec_T a 0) as [|Ha0]; [discriminate|].
      assert (Ha : (a < 0)%R) by lra.
      set (m := Z.to_nat (- k)) in *.
      assert (Hm : IZR k = (- INR m)%R).
      { unfold m. rewrite INR_IZR_INZ, Z2Nat.id by lia.
        now rewrite opp_IZR, Ropp_involutive. }
      exists (fct_cte 1 / (fun b => b ^ m))%F, (- a)%R.
      split; [lra|]. split.
      * intros b Hb. apply Rabs_def2 in Hb.
        unfold rpow. destruct (Rlt_dec 0 b) as [Hb0|_]; [lra|].
        rewrite is_int_IZR.
        assert (Hlt : (0 <=? k)%Z = false) by (apply Z.leb_gt; lia).
        rewrite Hlt. destruct (Req_dec_T b 0) as [|_]; [lra|].
        fold m. unfold div_fct, fct_cte. f_equal. unfold Rdiv. ring.
      * unfold rpow in Hp. destruct (Rlt_dec 0 a); [contradiction|].
        rewrite <- minus_IZR, is_int_IZR in Hp.
        assert (Hlt : (0 <=? k - 1)%Z = false) by (apply Z.leb_gt; lia).
        rewrite Hlt in Hp. destruct (Req_dec_T a 0); [contradiction|].
        injection Hp as <-.
        replace (Z.to_nat (- (k - 1))) with (S m) by (unfold m; lia).
        assert (Hm1 : (1 <= m)%nat) by (unfold m; lia).
        destruct m as [|m']; [lia|].
        replace (IZR k * / a ^ S (S m'))%R
          with ((0 * (fun b => b ^ S m') a - INR (S m') * a ^ pred (S m')
                 * fct_cte 1 a) / Rsqr ((fun b => b ^ S m') a))%R.
        -- apply derivable_pt_lim_div.
           ++ apply derivable_pt_lim_const.
           ++ apply derivable_pt_lim_pow.
           ++ apply pow_nonzero. exact Ha0.
        -- rewrite Hm. unfold fct_cte, Rsqr. cbn [pred pow].
           assert (HP : (a ^ m' <> 0)%R) by now apply pow_nonzero.
           set (N := INR (S m')). field. auto.
Qed.

Section Soundness.

Variable rho : env.
Variable x : string.

Lemma eval_total_Some (s : R) (e : expr) (a : R) :
  eval (upd rho x s) e = Some a -> eval_total (upd rho x s) e = a.
Proof. unfold eval_total. now intros ->. Qed.

Lemma eval_defined (s : R) (e : expr) :
  eval (upd rho x s) e <> None ->
  eval (upd rho x s) e = Some (eval_total (upd rho x s) e).
Proof. unfold eval_total. destruct (eval _ e); congruence. Qed.

(** The value of an expression does not depend on a symbol that does not
    occur in it. *)
Lemma eval_unrelated (e : expr) (s t : R) :
  occurs x e = false -> eval (upd rho x s) e = eval (upd rho x t) e.
Proof.
  induction e; simpl; intros H;
    try (apply orb_false_iff in H; destruct H as [H1 H2];
         rewrite (IHe1 H1), (IHe2 H2); reflexivity);
    try (rewrite (IHe H); reflexivity); auto.
  unfold upd. rewrite String.eqb_sym, H. reflexivity.
Qed.

Lemma has_deriv_unrelated (e : expr) (t y : R) :
  occurs x e = false -> eval (upd rho x t) e = Some y ->
  has_deriv rho x e t 0.
Proof.
  intros Hocc He. split.
  - exists (mkposreal 1 Rlt_0_1). intros s _.
    rewrite (eval_unrelated e s t Hocc), He. discriminate.
  - apply deriv_near with (g := fct_cte y) (delta := mkposreal 1 Rlt_0_1).
    + intros s _. unfold eval_total, fct_cte.
      now rewrite (eval_unrelated e s t Hocc), He.
    + apply derivable_pt_lim_const.
Qed.

(** Near [t], a subexpression with a derivative stays close to its
    value at [t]. *)
Lemma has_deriv_close (u : expr) (t du a eps : R) :
  has_deriv rho x u t du -> eval (upd rho x t) u = Some a -> (0 < eps)%R ->
  exists delta : posreal,
    forall s, (Rabs (s - t) < delta)%R ->
      exists b, eval (upd rho x s) u = Some b /\ (Rabs (b - a) < eps)%R.
Proof.
  intros [[d1 Hdef] Hder] Ha Heps.
  destruct (deriv_continuous _ _ _ _ Hder Heps) as [d2 Hc].
  destruct (posreal_min d1 d2) as [d [Hd1 Hd2]].
  exists d. intros s Hs.
  exists (eval_total (upd rho x s) u). split.
  - apply eval_defined, Hdef. lra.
  - rewrite <- (eval_total_Some t u a Ha). apply Hc. lra.
Qed.

(** Composition with a function of one real argument. *)
Lemma has_deriv_unary (u e : expr) (g : R -> R) (g_opt : R -> option R)
    (t a du l : R) (eta : R) :
  (forall s, eval (upd rho x s) e = opt_bind (eval (upd rho x s) u) g_opt) ->
  eval (upd rho x t) u = Some a ->
  has_deriv rho x u t du ->
  (0 < eta)%R ->
  (forall b, (Rabs (b - a) < eta)%R -> g_opt b = Some (g b)) ->
  derivable_pt_lim g a l ->
  has_deriv rho x e t (l * du).
Proof.
  intros He Ha Hu Heta Hg Hl.
  destruct (has_deriv_close u t du a eta Hu Ha Heta) as [delta Hnear].
  split.
  - exists delta. intros s Hs. destruct (Hnear s Hs) as [b [Hb Hba]].
    rewrite He, Hb. simpl. rewrite (Hg b Hba). discriminate.
  - apply deriv_near
      with (g := comp g (fun s => eval_total (upd rho x s) u))
           (delta := delta).
    + intros s Hs. destruct (Hnear s Hs) as [b [Hb Hba]].
      unfold comp, eval_total. rewrite He, Hb. simpl. now rewrite (Hg b Hba).
    + apply derivable_pt_lim_comp.
      * apply Hu.
      * now rewrite (eval_total_Some t u a Ha).
Qed.

(** Sum, difference and product. *)
Lemma has_deriv_arith (u v e : expr) (op : R -> R -> R)
    (t a b du dv l : R) :
  (forall rho', eval rho' e =
     opt_bind (eval rho' u) (fun a =>
     opt_bind (eval rho' v) (fun b => Some (op a b)))) ->
  eval (upd rho x t) u = Some a ->
  eval (upd rho x t) v = Some b ->
  has_deriv rho x u t du ->
  has_deriv rho x v t dv ->
  (forall g h : R -> R, g t = a -> h t = b ->
     derivable_pt_lim g t du -> derivable_pt_lim h t dv ->
     derivable_pt_lim (fun s => op (g s) (h s)) t l) ->
  has_deriv rho x e t l.
Proof.
  intros He Ha Hb [[d1 Hdu] Hu] [[d2 Hdv] Hv] Hop.
  destruct (posreal_min d1 d2) as [d [Hd1 Hd2]].
  split.
  - exists d. intros s Hs. rewrite He.
    rewrite (eval_defined s u) by (apply Hdu; lra).
    rewrite (eval_defined s v) by (apply Hdv; lra).
    discriminate.
  - apply deriv_near
      with (g := fun s => op (eval_total (upd rho x s) u)
                             (eval_total (upd rho x s) v))
           (delta := d).
    + intros s Hs. unfold eval_total at 1. rewrite He.
      rewrite (eval_defined s u) by (apply Hdu; lra).
      rewrite (eval_defined s v) by (apply Hdv; lra).
      reflexivity.
    + apply Hop; auto using eval_total_Some.
Qed.


(** Quotient. *)
Lemma has_deriv_div (u v : expr) (t a b du dv : R) :
  eval (upd rho x t) u = Some a ->
  eval (upd rho x t) v = Some b ->
  b <> 0%R ->
  has_deriv rho x u t du ->
  has_deriv rho x v t dv ->
  has_deriv rho x (Div u v) t ((du * b - dv * a) / Rsqr b).
Proof.
  intros Ha Hb Hb0 Hu Hv.
  assert (Hpos : (0 < Rabs b)%R) by now apply Rabs_pos_lt.
  destruct (has_deriv_close v t dv b (Rabs b) Hv Hb Hpos) as [d2 Hnear].
  destruct Hu as [[d1 Hdu] Hu].
  destruct (posreal_min d1 d2) as [d [Hd1 Hd2]].
  assert (Hs : forall s, (Rabs (s - t) < d)%R ->
            eval (upd rho x s) (Div u v) =
            Some (eval_total (upd rho x s) u / eval_total (upd rho x s) v)%R).
  { intros s Hs. simpl.
    rewrite (eval_defined s u) by (apply Hdu; lra). simpl.
    destruct (Hnear s) as [b' [Hb' Hclose]]; [lra|].
    rewrite Hb'. simpl. rewrite (eval_total_Some s v b' Hb').
    unfold rdiv. destruct (Req_dec_T b' 0) as [->|]; auto.
    exfalso. replace (0 - b)%R with (- b)%R in Hclose by ring.
    rewrite Rabs_Ropp in Hclose. lra. }
  split.
  - exists d. intros s Hsd. rewrite (Hs s Hsd). discriminate.
  - apply deriv_near
      with (g := ((fun s => eval_total (upd rho x s) u) /
                  (fun s => eval_total (upd rho x s) v))%F)
           (delta := d).
    + intros s Hsd. unfold eval_total at 1. now rewrite (Hs s Hsd).
    + set (U := fun s => eval_total (upd rho x s) u) in *.
      set (V := fun s => eval_total (upd rho x s) v) in *.
      assert (HU : U t = a) by (apply eval_total_Some, Ha).
      assert (HV : V t = b) by (apply eval_total_Some, Hb).
      rewrite <- HU, <- HV.
      apply derivable_pt_lim_div; auto. apply Hv. now rewrite HV.
Qed.

(** A power whose exponent varies: [u ** v = exp (v * ln u)]. *)
Lemma has_deriv_rpower (u v : expr) (t a b du dv : R) :
  eval (upd rho x t) u = Some a ->
  eval (upd rho x t) v = Some b ->
  (0 < a)%R ->
  has_deriv rho x u t du ->
  has_deriv rho x v t dv ->
  has_deriv rho x (Pow u v) t
    (Rpower a b * (dv * ln a + b * du / a)).
Proof.
  intros Ha Hb Hpos Hu Hv.
  destruct (has_deriv_close u t du a a Hu Ha Hpos) as [d1 Hnear].
  destruct Hv as [[d2 Hdv] Hv].
  destruct (posreal_min d1 d2) as [d [Hd1 Hd2]].
  assert (Hs : forall s, (Rabs (s - t) < d)%R ->
            eval (upd rho x s) (Pow u v) =
            Some (Rpower (eval_total (upd rho x s) u)
                         (eval_total (upd rho x s) v))).
  { intros s Hs. simpl.
    destruct (Hnear s) as [a' [Ha' Hclose]]; [lra|].
    rewrite Ha'. simpl. rewrite (eval_total_Some s u a' Ha').
    rewrite (eval_defined s v) by (apply Hdv; lra). simpl.
    unfold rpow. destruct (Rlt_dec 0 a') as [_|Hn]; auto.
    exfalso. apply Hn. apply Rabs_def2 in Hclose. lra. }
  split.
  - exists d. intros s Hsd. rewrite (Hs s Hsd). discriminate.
  - apply deriv_near
      with (g := comp exp
                   ((fun s => eval_total (upd rho x s) v) *
                    comp ln (fun s => eval_total (upd rho x s) u))%F)
           (delta := d).
    + intros s Hsd. unfold eval_total at 1. now rewrite (Hs s Hsd).
    + set (U := fun s => eval_total (upd rho x s) u) in *.
      set (V := fun s => eval_total (upd rho x s) v) in *.
      assert (HU : U t = a) by (apply eval_total_Some, Ha).
      assert (HV : V t = b) by (apply eval_total_Some, Hb).
      replace (Rpower a b * (dv * ln a + b * du / a))%R
        with (exp (V t * ln (U t))
              * (dv * ln (U t) + V t * (/ U t * du)))%R
        by (rewrite HU, HV; unfold Rpower, Rdiv; ring).
      apply (derivable_pt_lim_comp (V * comp ln U)%F exp).
      * apply (derivable_pt_lim_mult V (comp ln U) t dv (/ U t * du));
          [exact Hv|].
        apply (derivable_pt_lim_comp U ln); [apply Hu|].
        apply derivable_pt_lim_ln. now rewrite HU.
      * apply derivable_pt_lim_exp.
Qed.


Lemma has_deriv_eq (e : expr) (t d d' : R) :
  d = d' -> has_deriv rho x e t d' -> has_deriv rho x e t d.
Proof. now intros ->. Qed.

Ltac inv1 H a Ha :=
  apply opt_bind_Some in H; destruct H as [a [Ha H]].

(** Whenever an expression and its structural derivative both have a
    value at a point, the expression, as a function of the variable, is
    defined around the point and its derivative there is that value. *)
Theorem diff_sound (e : expr) (t y d : R) :
  eval (upd rho x t) e = Some y ->
  eval (upd rho x t) (diff x e) = Some d ->
  has_deriv rho x e t d.
Proof.
  revert t y d.
  induction e; intros t y d He Hd;
    match goal with
    | _ : eval _ ?E = Some y |- _ => destruct (occurs x E) eqn:Hocc
    end;
    try (rewrite (diff_unrelated _ _ Hocc) in Hd;
         cbn [eval zero num_val] in Hd; rewrite Q2R_int in Hd;
         injection Hd as <-;
         now apply has_deriv_unrelated with y);
    rewrite diff_unfold, Hocc in Hd; cbn [negb] in Hd;
    cbn [occurs] in Hocc; cbn [eval] in He.
  - (* Sym *)
    apply String.eqb_eq in Hocc. subst name.
    cbn [eval one num_val] in Hd. rewrite Q2R_int in Hd.
    injection Hd as <-.
    assert (Hid : forall s, eval (upd rho x s) (Sym x) = Some s).
    { intros s. simpl. unfold upd. now rewrite String.eqb_refl. }
    split.
    + exists (mkposreal 1 Rlt_0_1). intros s _. rewrite Hid. discriminate.
    + apply deriv_near with (g := id) (delta := mkposreal 1 Rlt_0_1).
      * intros s _. unfold eval_total. now rewrite Hid.
      * apply derivable_pt_lim_id.
  - (* Num *) discriminate.
  - (* Add *)
    inv1 He a Ha. inv1 He b Hb. injection He as <-.
    cbn [eval] in Hd. inv1 Hd du Hdu. inv1 Hd dv Hdv. injection Hd as <-.
    apply has_deriv_arith with (u := e1) (v := e2) (op := Rplus)
      (a := a) (b := b) (du := du) (dv := dv); eauto.
    intros g h _ _ Dg Dh. now apply derivable_pt_lim_plus.
  - (* Sub *)
    inv1 He a Ha. inv1 He b Hb. injection He as <-.
    cbn [eval] in Hd. inv1 Hd du Hdu. inv1 Hd dv Hdv. injection Hd as <-.
    apply has_deriv_arith with (u := e1) (v := e2) (op := Rminus)
      (a := a) (b := b) (du := du) (dv := dv); eauto.
    intros g h _ _ Dg Dh. now apply derivable_pt_lim_minus.
  - (* Mul *)
    inv1 He a Ha. inv1 He b Hb. injection He as <-.
    cbn [eval] in Hd. rewrite Ha, Hb in Hd.
    inv1 Hd p1 Hp1. inv1 Hp1 du Hdu. cbn [opt_bind] in Hp1.
    injection Hp1 as <-.
    inv1 Hd p2 Hp2. cbn [opt_bind] in Hp2. inv1 Hp2 dv Hdv.
    injection Hp2 as <-. injection Hd as <-.
    apply has_deriv_arith with (u := e1) (v := e2) (op := Rmult)
      (a := a) (b := b) (du := du) (dv := dv); eauto.
    intros g h Hg Hh Dg Dh. rewrite <- Hg, <- Hh.
    now apply derivable_pt_lim_mult.
  - (* Div *)
    inv1 He a Ha. inv1 He b Hb.
    unfold rdiv in He. destruct (Req_dec_T b 0) as [|Hb0]; [discriminate|].
    clear He.
    cbn [eval two num_val] in Hd. rewrite Ha, Hb, Q2R_int in Hd.
    inv1 Hd q1 Hq1. inv1 Hq1 p1 Hp1. inv1 Hp1 du Hdu.
    cbn [opt_bind] in Hp1. injection Hp1 as <-.
    inv1 Hq1 p2 Hp2. cbn [opt_bind] in Hp2. inv1 Hp2 dv Hdv.
    injection Hp2 as <-. injection Hq1 as <-.
    cbn [opt_bind] in Hd. rewrite rpow_2 in Hd. cbn [opt_bind] in Hd.
    unfold rdiv in Hd. destruct (Req_dec_T (b ^ 2) 0); [discriminate|].
    injection Hd as <-.
    apply has_deriv_eq with ((du * b - dv * a) / Rsqr b).
    + unfold Rsqr. field. exact Hb0.
    + apply has_deriv_div; eauto.
  - (* Pow *)
    inv1 He a Ha. inv1 He b Hb.
    destruct (occurs x e2) eqn:Hocc2; cbn [negb eval one num_val] in Hd;
      rewrite ?Ha, ?Hb, ?Q2R_int in Hd; cbn [opt_bind] in Hd.
    + (* the exponent varies *)
      rewrite He in Hd. cbn [opt_bind] in Hd.
      inv1 Hd q Hq. inv1 Hq p1 Hp1. inv1 Hp1 dv Hdv.
      inv1 Hp1 l Hl. injection Hp1 as <-.
      unfold rln in Hl. destruct (Rlt_dec 0 a) as [Hpos|]; [|discriminate].
      injection Hl as <-.
      inv1 Hq p2 Hp2. inv1 Hp2 p3 Hp3. inv1 Hp3 du Hdu.
      injection Hp3 as <-.
      unfold rdiv in Hp2. destruct (Req_dec_T a 0); [discriminate|].
      injection Hp2 as <-. injection Hq as <-. injection Hd as <-.
      unfold rpow in He. destruct (Rlt_dec 0 a); [|contradiction].
      injection He as <-.
      apply has_deriv_rpower; eauto.
    + (* the exponent is fixed *)
      inv1 Hd q Hq. inv1 Hq p Hp. injection Hq as <-.
      inv1 Hd du Hdu. injection Hd as <-.
      destruct (rpow_const_deriv a b y p He Hp) as (g & eta & Heta & Hg & Dg).
      apply has_deriv_unary
        with (u := e1) (g := g) (g_opt := fun a' => rpow a' b)
             (a := a) (eta := eta); eauto.
      intros s. cbn [eval].
      rewrite (eval_unrelated e2 s t Hocc2), Hb.
      destruct (eval (upd rho x s) e1); reflexivity.
  - (* Neg *)
    inv1 He a Ha. injection He as <-.
    cbn [eval] in Hd. inv1 Hd du Hdu. injection Hd as <-.
    apply has_deriv_eq with (-1 * du); [ring|].
    apply has_deriv_unary
      with (u := e) (g := (- id)%F) (g_opt := fun a' => Some (- a'))
           (a := a) (eta := 1); eauto; try lra.
    replace (-1) with (- 1) by ring.
    apply derivable_pt_lim_opp, derivable_pt_lim_id.
  - (* Sin *)
    inv1 He a Ha. injection He as <-.
    cbn [eval] in Hd. rewrite Ha in Hd. cbn [opt_bind] in Hd.
    inv1 Hd du Hdu. injection Hd as <-.
    apply has_deriv_unary
      with (u := e) (g := sin) (g_opt := fun a' => Some (sin a'))
           (a := a) (eta := 1); eauto; try lra.
    apply derivable_pt_lim_sin.
  - (* Cos *)
    inv1 He a Ha. injection He as <-.
    cbn [eval] in Hd. rewrite Ha in Hd. cbn [opt_bind] in Hd.
    inv1 Hd du Hdu. injection Hd as <-.
    apply has_deriv_unary
      with (u := e) (g := cos) (g_opt := fun a' => Some (cos a'))
           (a := a) (eta := 1); eauto; try lra.
    apply derivable_pt_lim_cos.
  - (* Sqrt *)
    inv1 He a Ha.
    cbn [eval two num_val] in Hd. rewrite Ha, Q2R_int in Hd.
    inv1 Hd du Hdu. cbn [opt_bind] in Hd. rewrite He in Hd.
    cbn [opt_bind] in Hd.
    unfold rsqrt in He. destruct (Rle_dec 0 a) as [Hle|]; [|discriminate].
    injection He as <-.
    unfold rdiv in Hd.
    destruct (Req_dec_T (2 * sqrt a) 0) as [|Hne]; [discriminate|].
    injection Hd as <-.
    assert (Hpos : 0 < a).
    { destruct Hle as [Hlt|<-]; auto. rewrite sqrt_0 in Hne. lra. }
    apply has_deriv_eq with (/ (2 * sqrt a) * du); [field; lra|].
    apply has_deriv_unary
      with (u := e) (g := sqrt) (g_opt := rsqrt) (a := a) (eta := a); eauto.
    * intros b Hb. apply Rabs_def2 in Hb. unfold rsqrt.
      destruct (Rle_dec 0 b); auto. lra.
    * now apply derivable_pt_lim_sqrt.
  - (* Ln *)
    inv1 He a Ha.
    cbn [eval] in Hd. rewrite Ha in Hd.
    inv1 Hd du Hdu. cbn [opt_bind] in Hd.
    unfold rln in He. destruct (Rlt_dec 0 a) as [Hpos|]; [|discriminate].
    injection He as <-.
    unfold rdiv in Hd. destruct (Req_dec_T a 0); [discriminate|].
    injection Hd as <-.
    apply has_deriv_eq with (/ a * du); [field; lra|].
    apply has_deriv_unary
      with (u := e) (g := ln) (g_opt := rln) (a := a) (eta := a); eauto.
    * intros b Hb. apply Rabs_def2 in Hb. unfold rln.
      destruct (Rlt_dec 0 b); auto. lra.
    * now apply derivable_pt_lim_ln.
  - (* Abs *)
    inv1 He a Ha. injection He as <-.
    cbn [eval] in Hd. rewrite Ha in Hd. cbn [opt_bind] in Hd.
    inv1 Hd q Hq. inv1 Hq du Hdu. injection Hq as <-.
    unfold rdiv in Hd.
    destruct (Req_dec_T (Rabs a) 0) as [|Hne]; [discriminate|].
    injection Hd as <-.
    destruct (Rtotal_order a 0) as [Hlt|[->|Hgt]].
    + apply has_deriv_eq with (-1 * du).
      { rewrite (Rabs_left a Hlt). field. lra. }
      apply has_deriv_unary
        with (u := e) (g := Rabs) (g_opt := fun a' => Some (Rabs a'))
             (a := a) (eta := 1); eauto; try lra.
      now apply Rabs_derive_2.
    + rewrite Rabs_R0 in Hne. contradiction.
    + apply has_deriv_eq with (1 * du).
      { rewrite (Rabs_right a) by lra. field. lra. }
      apply has_deriv_unary
        with (u := e) (g := Rabs) (g_opt := fun a' => Some (Rabs a'))
             (a := a) (eta := 1); eauto; try lra.
      now apply Rabs_derive_1.
Qed.

End Soundness.

(* ================================================================== *)
(** ** Exact evaluation agrees with evaluation over the reals         *)
(* ================================================================== *)

(** An integer exponent is a power or the inverse of one. *)
Lemma rpow_int (x : R) (k : Z) :
  (x <> 0 \/ (0 <= k)%Z) -> rpow x (IZR k) = Some (powerRZ x k).
Proof.
  intros H. unfold rpow. destruct (Rlt_dec 0 x) as [Hx|Hx].
  - now rewrite powerRZ_Rpower.
  - rewrite is_int_IZR. destruct (0 <=? k)%Z eqn:Hk.
    + apply Z.leb_le in Hk. destruct k as [|p|p]; simpl; auto. lia.
    + apply Z.leb_gt in Hk. destruct H as [H|H]; [|lia].
      destruct (Req_dec_T x 0); [contradiction|].
      destruct k as [|p|p]; try lia. reflexivity.
Qed.

Lemma Q2R_abs (q : Q) : Q2R (Qabs q) = Rabs (Q2R q).
Proof.
  apply Qabs_case; intros H; apply Qle_Rle in H.
  - rewrite Rabs_pos_eq; auto. now rewrite RMicromega.Q2R_0 in H.
  - rewrite Q2R_opp, Rabs_left1; auto. now rewrite RMicromega.Q2R_0 in H.
Qed.

Lemma q_is_int_Some (q : Q) (k : Z) : q_is_int q = Some k -> Q2R q = IZR k.
Proof.
  unfold q_is_int. destruct (Qeq_bool _ _) eqn:E; [|discriminate].
  intros H. injection H as <-. apply Qeq_bool_iff in E.
  rewrite (Qeq_eqR _ _ E). apply Q2R_int.
Qed.

(** The exact rational value of an expression is its real value. *)
Lemma evalQ_sound (e : expr) (q : Q) :
  evalQ e = Some q -> value_of e = Some (Q2R q).
Proof.
  unfold value_of. revert q.
  induction e; intros q H; cbn [evalQ eval] in *; try discriminate.
  - now injection H as <-.
  - apply opt_bind_Some in H. destruct H as [a [Ha H]].
    apply opt_bind_Some in H. destruct H as [b [Hb H]]. injection H as <-.
    rewrite (IHe1 _ Ha), (IHe2 _ Hb). cbn. now rewrite Q2R_plus.
  - apply opt_bind_Some in H. destruct H as [a [Ha H]].
    apply opt_bind_Some in H. destruct H as [b [Hb H]]. injection H as <-.
    rewrite (IHe1 _ Ha), (IHe2 _ Hb). cbn. now rewrite Q2R_minus.
  - apply opt_bind_Some in H. destruct H as [a [Ha H]].
    apply opt_bind_Some in H. destruct H as [b [Hb H]]. injection H as <-.
    rewrite (IHe1 _ Ha), (IHe2 _ Hb). cbn. now rewrite Q2R_mult.
  - apply opt_bind_Some in H. destruct H as [a [Ha H]].
    apply opt_bind_Some in H. destruct H as [b [Hb H]].
    destruct (Qeq_bool b 0) eqn:E; [discriminate|]. injection H as <-.
    apply Qeq_bool_neq in E.
    rewrite (IHe1 _ Ha), (IHe2 _ Hb). cbn [opt_bind]. unfold rdiv.
    destruct (Req_dec_T (Q2R b) 0) as [Hz|_].
    + exfalso. apply E. apply eqR_Qeq. now rewrite RMicromega.Q2R_0.
    + now rewrite Q2R_div.
  - apply opt_bind_Some in H. destruct H as [a [Ha H]].
    apply opt_bind_Some in H. destruct H as [b [Hb H]].
    destruct (q_is_int b) as [k|] eqn:Hk; [|discriminate].
    apply q_is_int_Some in Hk.
    destruct ((k <? 0)%Z && Qeq_bool a 0) eqn:E; [discriminate|].
    injection H as <-.
    rewrite (IHe1 _ Ha), (IHe2 _ Hb). cbn [opt_bind]. rewrite Hk.
    assert (Hdef : ~ (a == 0)%Q \/ (k >= 0)%Z).
    { apply andb_false_iff in E. destruct E as [E|E].
      - right. apply Z.ltb_ge in E. lia.
      - left. now apply Qeq_bool_neq. }
    rewrite rpow_int.
    + now rewrite Q2RpowerRZ.
    + destruct Hdef as [Hn|Hk0]; [left|right; lia].
      intros Hz. apply Hn. apply eqR_Qeq. now rewrite RMicromega.Q2R_0.
  - apply opt_bind_Some in H. destruct H as [a [Ha H]]. injection H as <-.
    rewrite (IHe _ Ha). cbn. now rewrite Q2R_opp.
  - apply opt_bind_Some in H. destruct H as [a [Ha H]]. injection H as <-.
    rewrite (IHe _ Ha). cbn. now rewrite Q2R_abs.
Qed.

(* ================================================================== *)
(** ** The derivative map holds the structural derivatives             *)
(* ================================================================== *)

Lemma diff_standard_rules : standard_rules diff.
Proof.
  unfold standard_rules. repeat split; intros.
  - now apply diff_unrelated.
  - simpl. now rewrite String.eqb_refl.
  - rewrite diff_unfold, H. reflexivity.
  - rewrite diff_unfold, H. reflexivity.
  - rewrite diff_unfold, H. reflexivity.
  - rewrite diff_unfold, H. reflexivity.
  - rewrite diff_unfold. cbn [occurs]. rewrite H, H0. reflexivity.
  - rewrite diff_unfold. cbn [occurs]. rewrite H, orb_true_r. reflexivity.
  - rewrite diff_unfold. cbn [occurs]. rewrite H. reflexivity.
  - rewrite diff_unfold. cbn [occurs]. rewrite H. reflexivity.
  - rewrite diff_unfold. cbn [occurs]. rewrite H. reflexivity.
Qed.

(** C3: after construction, the entry of the derivative map for every
    declared variable is the structural partial derivative of the formula
    body with respect to that variable, computed by an operator that
    obeys the standard rules (an unrelated subtree gives [0]; sum and
    difference; product; quotient; power; chain rule for [sin], [cos] and
    [sqrt]); and wherever the body and this entry both have a value, the
    entry's value is the derivative of the body as a real function of the
    variable. *)
Theorem derivative_map_structural (func : callable) (self : Error)
    (v : string) :
  init func = inr self ->
  In v (args (getfullargspec func)) ->
  exists e,
    body func = PyExpr e /\
    dict_get (derivatives self) v = Some (diff v e) /\
    standard_rules diff /\
    forall (rho : env) (t y d : R),
      eval (upd rho v t) e = Some y ->
      eval (upd rho v t) (diff v e) = Some d ->
      derivable_pt_lim (fun s => eval_total (upd rho v s) e) t d.
Proof.
  intros Hi Hin.
  destruct (init_derivative_entry _ _ _ Hi Hin) as (e & Hb & Hd).
  exists e. split; [exact Hb|]. split; [exact Hd|].
  split; [exact diff_standard_rules|].
  intros rho t y d He Hde.
  exact (proj2 (diff_sound rho v e t y d He Hde)).
Qed.

Lemma derivative_map_structural_witness :
  init my_function1 = inr error1 /\
  In "a" (args (getfullargspec my_function1)) /\
  exists e,
    body my_function1 = PyExpr e /\
    dict_get (derivatives error1) "a" = Some (diff "a" e).
Proof.
  split; [reflexivity|]. split; [now left|].
  destruct (derivative_map_structural my_function1 error1 "a" eq_refl
              (or_introl eq_refl)) as (e & Hb & Hd & _).
  exists e. split; assumption.
Defined.

Local Close Scope R_scope.

(* ================================================================== *)
(** ** When the methods return                                         *)
(* ================================================================== *)

Lemma mapE_inr_iff {A B : Type} (g : A -> exc B) (l : list A) :
  (exists bs, mapE g l = inr bs) <-> (forall a, In a l -> exists b, g a = inr b).
Proof.
  induction l as [|a l IH]; simpl.
  - split; [intros _ a []|eauto].
  - split.
    + intros [bs H] a' [<-|Hin].
      * destruct (g a); [discriminate|eauto].
      * destruct (g a); [discriminate|]. simpl in H.
        destruct (mapE g l) eqn:E; [discriminate|].
        apply IH; eauto.
    + intros H. destruct (H a (or_introl eq_refl)) as [b Hb].
      rewrite Hb. simpl.
      destruct (proj2 IH) as [bs Hbs].
      { intros a' Hin. apply H. now right. }
      rewrite Hbs. simpl. eauto.
Qed.

Lemma mapE_inl {A B : Type} (g : A -> exc B) (l : list A) (err : pyexc) :
  mapE g l = inl err -> exists a, In a l /\ g a = inl err.
Proof.
  induction l as [|a l IH]; simpl; [discriminate|].
  destruct (g a) as [e|b] eqn:Hg; simpl.
  - intros H. injection H as <-. eauto.
  - destruct (mapE g l) eqn:E; simpl; [|discriminate].
    intros H. injection H as <-. destruct (IH eq_refl) as [a' [Hin Ha']]. eauto.
Qed.

(** After construction the derivative map has an entry exactly under the
    declared names. *)
Lemma init_has_derivative (func : callable) (self : Error) (k : string) :
  init func = inr self ->
  (has_key (derivatives self) k <-> In k (variables self)).
Proof.
  intros Hi. destruct (init_inr _ _ Hi) as (Hv & _). unfold has_key. split.
  - destruct (dict_get (derivatives self) k) as [d|] eqn:E; [|congruence].
    intros _. destruct (init_derivative_lookup _ _ _ _ Hi E) as (_ & _ & _ & H).
    now rewrite Hv.
  - intros Hin. rewrite Hv in Hin.
    destruct (init_derivative_entry _ _ _ Hi Hin) as (e & _ & ->). discriminate.
Qed.

Lemma term_of_returns (ds : dict expr) (values : dict measurement) (v : string) :
  (exists t, term_of ds values ("delta_" ++ v) = inr t) <->
  has_key values ("delta_" ++ v) /\ has_key ds (first_segment v).
Proof.
  rewrite term_of_delta. unfold getitem, has_key.
  destruct (dict_get values ("delta_" ++ v)); cbn [exc_bind].
  - destruct (dict_get ds (first_segment v)); cbn [exc_bind].
    + split; [intros _; split; discriminate|eauto].
    + split; [intros [t H]; discriminate|intros [_ H]; congruence].
  - split; [intros [t H]; discriminate|intros [H _]; congruence].
Qed.

(** X1: [result] returns exactly when every declared variable has its
    uncertainty entry and the part of its name before the first underscore
    is itself a declared name; entries of values play no part. *)
Theorem result_returns_iff (func : callable) (self : Error)
    (values : dict measurement) :
  init func = inr self ->
  ((exists t, result values self = (inr t, self)) <->
   (forall v, In v (variables self) ->
      has_key values ("delta_" ++ v) /\
      In (first_segment v) (variables self))).
Proof.
  intros Hi. destruct (init_inr _ _ Hi) as (Hv & He & _).
  rewrite result_run, He, <- Hv.
  assert (Hm : (exists ts, mapE (term_of (derivatives self) values)
                   (map (fun v => "delta_" ++ v) (variables self)) = inr ts) <->
               (forall v, In v (variables self) ->
                  has_key values ("delta_" ++ v) /\
                  In (first_segment v) (variables self))).
  { rewrite mapE_inr_iff. split.
    - intros H v Hin.
      destruct (proj1 (term_of_returns _ _ _)
                  (H _ (in_map (fun v => "delta_" ++ v) _ _ Hin))) as [H1 H2].
      split; auto. now apply (init_has_derivative func self).
    - intros H dn Hdn. apply in_map_iff in Hdn. destruct Hdn as [v [<- Hin]].
      apply term_of_returns. destruct (H v Hin) as [H1 H2].
      split; auto. now apply (init_has_derivative func self). }
  rewrite <- Hm. split.
  - intros [t H]. destruct (mapE _ _) as [err|ts]; [discriminate|eauto].
  - intros [ts ->]. cbn [exc_bind]. eauto.
Qed.

Lemma result_returns_iff_witness :
  init my_function1 = inr error1 /\
  exists t, result values1 error1 = (inr t, error1).
Proof.
  split; [reflexivity|].
  apply (proj2 (result_returns_iff my_function1 error1 values1 eq_refl)).
  simpl. intros v [<-|[<-|[]]]; (split; [discriminate|]); simpl; auto.
Defined.

(** X2: the only exception [result] raises is [KeyError]. *)
Theorem result_raises_only_KeyError (func : callable) (self : Error)
    (values : dict measurement) (err : pyexc) :
  init func = inr self ->
  fst (result values self) = inl err ->
  exists key, err = KeyError key.
Proof.
  intros Hi. destruct (init_inr _ _ Hi) as (Hv & He & _).
  rewrite result_run, He. cbn [fst].
  destruct (mapE _ _) as [err'|ts] eqn:E; cbn [exc_bind]; [|discriminate].
  intros H. injection H as ->.
  apply mapE_inl in E. destruct E as [dn [Hdn Herr]].
  apply in_map_iff in Hdn. destruct Hdn as [v [<- _]].
  rewrite term_of_delta in Herr. unfold getitem in Herr.
  destruct (dict_get values ("delta_" ++ v)); cbn [exc_bind] in Herr.
  - destruct (dict_get (derivatives self) (first_segment v));
      cbn [exc_bind] in Herr; [discriminate|].
    injection Herr as <-. eauto.
  - injection Herr as <-. eauto.
Qed.

Lemma result_raises_only_KeyError_witness :
  init underscored = inr error_underscored /\
  fst (result values_underscored error_underscored) = inl (KeyError "x") /\
  exists key, KeyError "x" = KeyError key.
Proof.
  split; [reflexivity|]. split; [reflexivity|].
  exact (result_raises_only_KeyError underscored error_underscored
           values_underscored (KeyError "x") eq_refl eq_refl).
Defined.

Section Returns.

Variable latex : expr -> string.
Variable str_num : number -> string.
Variable float_of : expr -> exc number.

(** X3: [substitute] returns exactly when every declared variable has its
    uncertainty entry, whatever the names are. *)
Theorem substitute_returns_iff (func : callable) (self : Error)
    (values : dict measurement) :
  init func = inr self ->
  ((exists s, substitute latex str_num values self = (inr s, self)) <->
   (forall v, In v (variables self) -> has_key values ("delta_" ++ v))).
Proof.
  intros Hi. destruct (init_inr _ _ Hi) as (Hv & _).
  rewrite substitute_run.
  match goal with
  | |- context [mapE ?g (variables self)] =>
      assert (Hm : (exists ss, mapE g (variables self) = inr ss) <->
                   (forall v, In v (variables self) ->
                      has_key values ("delta_" ++ v)))
  end.
  { rewrite mapE_inr_iff. split.
    - intros H v Hin. destruct (H v Hin) as [b Hb].
      unfold has_key, getitem in *.
      destruct (dict_get (derivatives self) v); cbn [exc_bind] in Hb;
        [|discriminate].
      destruct (dict_get values ("delta_" ++ v)); [discriminate|].
      cbn [exc_bind] in Hb. discriminate.
    - intros H v Hin. specialize (H v Hin). unfold has_key, getitem in *.
      assert (Hin' := Hin). rewrite Hv in Hin'.
      destruct (init_derivative_entry _ _ _ Hi Hin') as (e & _ & ->).
      cbn [exc_bind].
      destruct (dict_get values ("delta_" ++ v)); [|congruence].
      cbn [exc_bind]. eauto. }
  rewrite <- Hm. split.
  - intros [s H]. destruct (mapE _ _) as [err|ss]; [discriminate|eauto].
  - intros [ss ->]. cbn [exc_bind]. eauto.
Qed.

End Returns.

Lemma substitute_returns_iff_witness :
  init underscored = inr error_underscored /\
  exists s, substitute (fun _ => "X") py_str values_underscored
              error_underscored = (inr s, error_underscored).
Proof.
  split; [reflexivity|].
  apply (proj2 (substitute_returns_iff (fun _ => "X") py_str underscored
                  error_underscored values_underscored eq_refl)).
  simpl. intros v [<-|[]]. discriminate.
Defined.

(* ================================================================== *)
(** ** Units, empty signatures and constant formulas                   *)
(* ================================================================== *)

(** X5: [result] reads the values of the measurements, never their units. *)
Theorem result_ignores_units (self : Error) (vals vals' : dict measurement) :
  value_dict vals = value_dict vals' ->
  fst (result vals self) = fst (result vals' self).
Proof.
  intros Hvd. rewrite !result_run. cbn [fst]. f_equal.
  apply mapE_ext. intros dn _. unfold term_of, getitem.
  assert (Hg : option_map fst (dict_get vals dn) =
               option_map fst (dict_get vals' dn))
    by now rewrite <- !dict_get_value_dict, Hvd.
  destruct (dict_get vals dn) as [m|], (dict_get vals' dn) as [m'|];
    try discriminate; cbn [exc_bind]; auto.
  injection Hg as Hm. rewrite Hm, Hvd. reflexivity.
Qed.

Lemma result_ignores_units_witness :
  value_dict values1 = value_dict values1_metres /\
  fst (result values1 error1) = fst (result values1_metres error1).
Proof.
  split; [reflexivity|].
  exact (result_ignores_units error1 values1 values1_metres eq_refl).
Defined.


(** X6: a formula without parameters constructs, and [result] is the integer
    [0] for every mapping. *)
Theorem no_parameters_result_zero (func : callable) :
  args (getfullargspec func) = [] ->
  no_required_kwonly func = true ->
  exists self,
    init func = inr self /\
    derivatives self = [] /\
    forall values, result values self = (inr zero, self).
Proof.
  intros Ha Hk. unfold init, init_traced, call_with_symbols.
  unfold no_required_kwonly in Hk. rewrite (find_negb_forallb _ _ Hk), Ha.
  cbn [exc_bind init_loop map fst snd].
  eexists. split; [reflexivity|]. split; [reflexivity|].
  intros values. reflexivity.
Qed.

Lemma no_parameters_result_zero_witness :
  args (getfullargspec three) = [] /\
  no_required_kwonly three = true /\
  exists self, init three = inr self /\ derivatives self = [] /\
               forall values, result values self = (inr zero, self).
Proof.
  split; [reflexivity|]. split; [reflexivity|].
  exact (no_parameters_result_zero three eq_refl eq_refl).
Defined.

(* ================================================================== *)
(** ** The derivative map as a list, and the text of an instance       *)
(* ================================================================== *)

Lemma dict_set_absent {V : Type} (k : string) (v : V) (d : dict V) :
  ~ In k (keys d) -> dict_set k v d = (d ++ [(k, v)])%list.
Proof.
  induction d as [|[k' v'] d IH]; simpl; intros Hn; auto.
  destruct (String.eqb k k') eqn:E.
  - apply String.eqb_eq in E. subst k'. exfalso. apply Hn. now left.
  - f_equal. apply IH. intros H. apply Hn. now right.
Qed.

Lemma fold_set_list (e : expr) (vars : list string) (d : dict expr) :
  NoDup vars -> (forall v, In v vars -> ~ In v (keys d)) ->
  fold_left (fun d v => dict_set v (diff v e) d) vars d =
  (d ++ map (fun v => (v, diff v e)) vars)%list.
Proof.
  revert d. induction vars as [|v vars IH]; intros d Hnd Hfresh; simpl.
  - now rewrite app_nil_r.
  - inversion Hnd as [|? ? Hv Hnd']; subst.
    rewrite dict_set_absent by (apply Hfresh; now left).
    rewrite IH; auto.
    + now rewrite <- app_assoc.
    + intros w Hw. unfold keys. rewrite map_app, in_app_iff. simpl.
      intros [Hin|[Heq|[]]].
      * apply (Hfresh w); auto. now right.
      * subst w. contradiction.
Qed.

(** After construction the derivative map lists, in declaration order, each
    parameter name with the derivative of the body with respect to it. *)
Lemma init_derivatives_list (func : callable) (self : Error) (e : expr) :
  NoDup (args (getfullargspec func)) ->
  init func = inr self ->
  body func = PyExpr e ->
  derivatives self =
  map (fun v => (v, diff v e)) (args (getfullargspec func)).
Proof.
  intros Hnd Hi Hb. destruct (init_inr _ _ Hi) as (_ & _ & _ & Hd & _).
  rewrite Hd, Hb. rewrite fold_set_list; auto.
Qed.

Section TextFacts.

Variable sstr : expr -> string.

(** X8: the text of an instance has one term per parameter, in declaration
    order: [delta_], the name, and the text of the derivative of the body
    with respect to that parameter in parentheses; [repr] gives the same
    text, and neither changes the instance. *)
Theorem str_lists_derivatives (func : callable) (self : Error) (e : expr) :
  NoDup (args (getfullargspec func)) ->
  init func = inr self ->
  body func = PyExpr e ->
  __str__ sstr self =
    (inr (join " + "
            (map (fun v => "delta_" ++ v ++ "*(" ++ sstr (diff v e) ++ ")")
                 (args (getfullargspec func)))),
     self) /\
  __repr__ sstr self = __str__ sstr self.
Proof.
  intros Hnd Hi Hb. split; [|reflexivity].
  unfold __str__, bind, attr, ret. cbn [fst snd].
  rewrite (init_derivatives_list func self e Hnd Hi Hb), map_map.
  reflexivity.
Qed.

End TextFacts.

Lemma str_lists_derivatives_witness :
  NoDup (args (getfullargspec my_function1)) /\
  init my_function1 = inr error1 /\
  body my_function1 = PyExpr formula1 /\
  __str__ (fun _ => "X") error1 = (inr "delta_a*(X) + delta_b*(X)", error1).
Proof.
  assert (Hnd : NoDup (args (getfullargspec my_function1))).
  { simpl. repeat constructor; simpl; intuition discriminate. }
  split; [exact Hnd|]. split; [reflexivity|]. split; [reflexivity|].
  exact (proj1 (str_lists_derivatives (fun _ => "X") my_function1 error1
                  formula1 Hnd eq_refl eq_refl)).
Defined.

(* ================================================================== *)
(** ** The variant with plain numbers                                  *)
(* ================================================================== *)

Section Variant.

Variable latex : expr -> string.
Variable str_num : number -> string.
Variable fixed6 : expr -> exc string.

Lemma readonly_variant_substitute (values : dict number) :
  readonly (SymbolicDerivatives.substitute latex str_num values).
Proof.
  unfold SymbolicDerivatives.substitute, SymbolicDerivatives.substitute_term.
  readonly_steps.
Qed.

(** On a mapping stripped of its units the variant builds the terms that
    [Error] builds on the mapping itself. *)
Lemma variant_error_term_run (values : dict measurement) (delta_name : string)
    (self : Error) :
  SymbolicDerivatives.error_term (value_dict values) delta_name self =
  (term_of (derivatives self) values delta_name, self).
Proof.
  unfold SymbolicDerivatives.error_term, term_of, bind, lift, attr, ret, getitem.
  rewrite dict_get_value_dict.
  destruct (dict_get values delta_name) as [m|]; cbn [option_map exc_bind]; auto.
  destruct (index _ 1); cbn [exc_bind]; auto.
  destruct (dict_get (derivatives self) s); reflexivity.
Qed.

(** X9: the third line of the block of [SymbolicDerivatives.latex_output] is
    ["&= "] followed by the six-decimal text of the very expression that
    [Error.result] returns on the same measurements with units attached. *)
Theorem variant_result_line (values : dict measurement) (self : Error)
    (block : string) :
  fst (SymbolicDerivatives.latex_output latex str_num fixed6
         (value_dict values) self) = inr block ->
  exists pre t text,
    fst (result values self) = inr t /\
    fixed6 t = inr text /\
    block = pre ++ ("&= " ++ text ++ nl) ++ "\end{align*}" ++ nl ++ nl.
Proof.
  unfold SymbolicDerivatives.latex_output, bind, attr. cbn [fst snd].
  destruct (SymbolicDerivatives.substitute latex str_num (value_dict values)
              self) as [[err|s] self'] eqn:Hs; [discriminate|].
  assert (Hself : self' = self).
  { change self' with (snd (inr s : exc string, self')).
    rewrite <- Hs. apply readonly_variant_substitute. }
  subst self'.
  rewrite (mapM_run _ (fun s0 => term_of (derivatives s0) values))
    by (intros a; apply variant_error_term_run).
  rewrite result_run. cbn [fst].
  destruct (mapE _ (error_symbols self)) as [err|terms];
    cbn [exc_bind]; [discriminate|].
  unfold lift. destruct (fixed6 (sum terms)) as [err|text] eqn:Hf;
    [discriminate|].
  unfold ret. cbn [fst]. intros H.
  exists ((("\begin{align*}" ++ nl)
             ++ ("&= \Delta "
                   ++ join " + \Delta "
                        (map (fun item =>
                                fst item ++ " \cdot \left|"
                                    ++ latex (snd item) ++ "\right|")
                             (derivatives self))
                   ++ "\\" ++ nl))
            ++ ("&= "
                  ++ fold_left (SymbolicDerivatives.annotate str_num)
                       (dict_values (value_dict values)) s
                  ++ "\\" ++ nl)),
    (sum terms), text.
  split; [reflexivity|]. split; [exact Hf|].
  assert (Hinj : forall a b : string, inr a = inr b :> exc string -> a = b)
    by (intros a b E; congruence).
  symmetry. apply Hinj. rewrite <- H. f_equal.
  rewrite !string_app_assoc. reflexivity.
Qed.

End Variant.

Lemma variant_result_line_witness :
  exists block,
    fst (SymbolicDerivatives.latex_output (fun _ => "X") py_str
           (fun e => exc_bind (float_exact e) (fun r => inr (py_str r)))
           (value_dict values1) error1) = inr block /\
    exists pre t text,
      fst (result values1 error1) = inr t /\
      exc_bind (float_exact t) (fun r => inr (py_str r)) = inr text /\
      block = pre ++ ("&= " ++ text ++ nl) ++ "\end{align*}" ++ nl ++ nl.
Proof.
  eexists. split; [vm_compute; reflexivity|].
  apply (variant_result_line (fun _ => "X") py_str
           (fun e => exc_bind (float_exact e) (fun r => inr (py_str r)))
           values1 error1).
  vm_compute. reflexivity.
Defined.

(* ================================================================== *)
(** ** A complete mapping gives a result without symbols               *)
(* ================================================================== *)

Lemma occurs_subs (d : dict number) (y : string) (e : expr) :
  occurs y (subs d e) = true -> occurs y e = true /\ dict_get d y = None.
Proof.
  induction e; simpl; rewrite ?orb_true_iff; intros H;
    try (destruct H as [H|H]; [destruct (IHe1 H)|destruct (IHe2 H)]; auto);
    try (now apply IHe); try discriminate.
  destruct (dict_get d name) eqn:E; simpl in H; [discriminate|].
  apply String.eqb_eq in H. subst name.
  split; auto. apply String.eqb_refl.
Qed.

Lemma occurs_sum_from (y : string) (terms : list expr) (acc : expr) :
  occurs y acc = false ->
  (forall t, In t terms -> occurs y t = false) ->
  occurs y (fold_left Add terms acc) = false.
Proof.
  revert acc. induction terms as [|t terms IH]; intros acc Ha Ht; simpl; auto.
  apply IH.
  - simpl. rewrite Ha. apply Ht. now left.
  - intros t' Hin. apply Ht. now right.
Qed.

Lemma mapE_inr_In {A B : Type} (g : A -> exc B) (l : list A) (bs : list B)
    (b : B) :
  mapE g l = inr bs -> In b bs -> exists a, In a l /\ g a = inr b.
Proof.
  revert bs. induction l as [|a l IH]; intros bs; simpl.
  - intros H. injection H as <-. intros [].
  - destruct (g a) as [err|b0] eqn:Hg; cbn [exc_bind]; [discriminate|].
    destruct (mapE g l) as [err|bs0]; cbn [exc_bind]; [discriminate|].
    intros H. injection H as <-. intros [<-|Hin].
    + eauto.
    + destruct (IH bs0 eq_refl Hin) as [a' [Ha' Hb]]. eauto.
Qed.

(** X10: when every declared variable has its value entry and the formula
    mentions its own parameters only, the expression [result] returns
    contains no symbol: it is a number, not a formula. *)
Theorem result_closed (func : callable) (self : Error)
    (values : dict measurement) (t : expr) :
  init func = inr self ->
  well_scoped func ->
  (forall v, In v (variables self) -> has_key values v) ->
  fst (result values self) = inr t ->
  forall y, occurs y t = false.
Proof.
  intros Hi Hws Hall. destruct (init_inr _ _ Hi) as (Hv & He & _).
  rewrite result_run, He. cbn [fst].
  destruct (mapE _ _) as [err|terms] eqn:E; cbn [exc_bind]; [discriminate|].
  intros H y. injection H as <-.
  apply occurs_sum_from; [reflexivity|].
  intros t Hin.
  destruct (mapE_inr_In _ _ _ _ E Hin) as [dn [Hdn Ht]].
  apply in_map_iff in Hdn. destruct Hdn as [v [<- _]].
  rewrite term_of_delta in Ht. unfold getitem in Ht.
  destruct (dict_get values ("delta_" ++ v)) as [m|];
    cbn [exc_bind] in Ht; [|discriminate].
  destruct (dict_get (derivatives self) (first_segment v)) as [d|] eqn:Hd;
    cbn [exc_bind] in Ht; [|discriminate].
  injection Ht as <-. cbn [occurs].
  destruct (occurs y (subs (value_dict values) d)) eqn:Hy; auto.
  exfalso. apply occurs_subs in Hy. destruct Hy as [Hy Hnone].
  destruct (init_derivative_lookup _ _ _ _ Hi Hd) as (e & Hb & -> & _).
  apply occurs_diff in Hy. unfold well_scoped in Hws. rewrite Hb in Hws.
  apply Hws in Hy. rewrite <- Hv in Hy.
  apply (Hall y Hy). rewrite dict_get_value_dict in Hnone.
  destruct (dict_get values y); [discriminate|reflexivity].
Qed.

Lemma result_closed_witness :
  init identity = inr error_x /\
  well_scoped identity /\
  fst (result values_x error_x) =
    inr (Add zero (Mul (Num (Float (1 # 2))) (Abs one))) /\
  occurs "x" (Add zero (Mul (Num (Float (1 # 2))) (Abs one))) = false.
Proof.
  assert (Hws : well_scoped identity).
  { unfold well_scoped. simpl. intros y Hy.
    apply String.eqb_eq in Hy. now left. }
  split; [reflexivity|]. split; [exact Hws|]. split; [reflexivity|].
  apply (result_closed identity error_x values_x _ eq_refl Hws).
  - simpl. intros v [<-|[]]. discriminate.
  - reflexivity.
Defined.

(* ================================================================== *)
(** ** Zero-valued measurements                                        *)
(* ================================================================== *)

(** X11: the annotation pass of [latex_out] leaves the substituted line as it
    is when every measurement has the value zero, whatever the units. *)
Theorem annotate_zero_values (str_num : number -> string)
    (values : dict measurement) (substituted_str : string) :
  (forall m, In m (dict_values values) -> num_eqb (fst m) (Float 0) = true) ->
  fold_left (annotate str_num) (dict_values values) substituted_str =
  substituted_str.
Proof.
  generalize (dict_values values). intros l.
  induction l as [|m l IH]; intros H; simpl; auto.
  unfold annotate at 2. rewrite (H m (or_introl eq_refl)).
  apply IH. intros m' Hin. apply H. now right.
Qed.

Lemma annotate_zero_values_witness :
  (forall m, In m (dict_values values_zero) ->
     num_eqb (fst m) (Float 0) = true) /\
  fold_left (annotate py_str) (dict_values values_zero) "0 \cdot \left|1\right|"
  = "0 \cdot \left|1\right|".
Proof.
  assert (H : forall m, In m (dict_values values_zero) ->
                num_eqb (fst m) (Float 0) = true).
  { simpl. intros m [<-|[<-|[]]]; reflexivity. }
  split; [exact H|].
  exact (annotate_zero_values py_str values_zero _ H).
Defined.

(* ================================================================== *)
(** ** Parameter names without an underscore                           *)
(* ================================================================== *)

Lemma split_plain (name : string) :
  no_underscore name = true -> split "_" name = [name].
Proof.
  induction name as [|c name IH]; simpl; auto.
  intros H. apply andb_true_iff in H. destruct H as [Hc Hn].
  apply negb_true_iff in Hc. rewrite Hc, (IH Hn). reflexivity.
Qed.

Lemma first_segment_plain (name : string) :
  no_underscore name = true -> first_segment name = name.
Proof. intros H. unfold first_segment. now rewrite split_plain. Qed.

(** X13: a parameter that does not occur in the body, when its name has no
    underscore: its cached derivative is [0] and its term in the sum has
    the value [0], whatever uncertainty is supplied for it. *)
Theorem unused_parameter_contributes_zero (func : callable) (self : Error)
    (e : expr) (values : dict measurement) (v : string) (m : measurement) :
  init func = inr self ->
  body func = PyExpr e ->
  In v (variables self) ->
  occurs v e = false ->
  no_underscore v = true ->
  dict_get values ("delta_" ++ v) = Some m ->
  dict_get (derivatives self) v = Some zero /\
  term_of (derivatives self) values ("delta_" ++ v) =
    inr (Mul (Num (fst m)) (Abs zero)) /\
  value_of (Mul (Num (fst m)) (Abs zero)) = Some 0%R.
Proof.
  intros Hi Hb Hin Hocc Hplain Hm.
  apply (unused_parameter_term func self e values v m); auto.
  now apply first_segment_plain.
Qed.

Lemma unused_parameter_contributes_zero_witness :
  init with_unused = inr error_unused /\
  occurs "y" (Sym "x") = false /\
  no_underscore "y" = true /\
  dict_get values_xy "delta_y" = Some (Float (1 # 4), "") /\
  value_of (Mul (Num (Float (1 # 4))) (Abs zero)) = Some 0%R.
Proof.
  split; [reflexivity|]. split; [reflexivity|]. split; [reflexivity|].
  split; [reflexivity|].
  exact (proj2 (proj2
    (unused_parameter_contributes_zero with_unused error_unused (Sym "x")
       values_xy "y" (Float (1 # 4), "") eq_refl eq_refl
       (or_intror (or_introl eq_refl)) eq_refl eq_refl eq_refl))).
Defined.

(* ================================================================== *)
(** ** The sum that result builds                                      *)
(* ================================================================== *)

(** X14: the expression [result] returns, whatever the names are: the integer
    [0] plus, for every declared variable in declaration order, its
    uncertainty times the absolute value of the substituted derivative
    with respect to the part of its name before the first underscore. *)
Theorem result_sum_form (func : callable) (self : Error) (e : expr)
    (values : dict measurement) (unc : string -> number) :
  init func = inr self ->
  body func = PyExpr e ->
  (forall v, In v (variables self) ->
     In (first_segment v) (variables self) /\
     exists unit, dict_get values ("delta_" ++ v) = Some (unc v, unit)) ->
  result values self =
  (inr (sum (map (fun v =>
                    Mul (Num (unc v))
                        (Abs (subs (value_dict values)
                                   (diff (first_segment v) e))))
                 (variables self))),
   self).
Proof.
  intros Hi Hb Hall.
  destruct (init_inr _ _ Hi) as (Hv & He & _).
  rewrite result_run, He, <- Hv.
  assert (Hterms :
    forall l, incl l (variables self) ->
      mapE (term_of (derivatives self) values)
           (map (fun v => "delta_" ++ v) l) =
      inr (map (fun v => Mul (Num (unc v))
                             (Abs (subs (value_dict values)
                                        (diff (first_segment v) e)))) l)).
  { induction l as [|v l IH]; intros Hl; cbn [map mapE]; auto.
    assert (Hin : In v (variables self)) by (apply Hl; now left).
    destruct (Hall v Hin) as [Hseg [unit Hu]].
    rewrite term_of_delta. unfold getitem. rewrite Hu. cbn [exc_bind fst].
    rewrite Hv in Hseg.
    destruct (init_derivative_entry _ _ _ Hi Hseg) as (e' & Hb' & Hd).
    rewrite Hb in Hb'. injection Hb' as <-. rewrite Hd. cbn [exc_bind].
    rewrite IH; auto. intros w Hw. apply Hl. now right. }
  rewrite Hterms by apply incl_refl. reflexivity.
Qed.

Lemma result_sum_form_witness :
  init shadowed = inr error_shadowed /\
  body shadowed = PyExpr (Sym "x") /\
  fst (result values_shadowed error_shadowed) =
  inr (sum [Mul (Num (Float (1 # 2))) (Abs one);
            Mul (Num (Float (1 # 4))) (Abs one)]).
Proof.
  split; [reflexivity|]. split; [reflexivity|].
  rewrite (result_sum_form shadowed error_shadowed (Sym "x") values_shadowed
             (fun v => if String.eqb v "x" then Float (1 # 2)
                       else Float (1 # 4)) eq_refl eq_refl).
  - reflexivity.
  - simpl. intros v [<-|[<-|[]]]; (split; [simpl; auto|]);
      exists ""; reflexivity.
Defined.

(* ================================================================== *)
(** ** Value entries and the symbols of the result                     *)
(* ================================================================== *)


Lemma mapE_inr_of {A B : Type} (g : A -> exc B) (l : list A) (bs : list B)
    (a : A) :
  mapE g l = inr bs -> In a l -> exists b, In b bs /\ g a = inr b.
Proof.
  revert bs. induction l as [|a0 l IH]; intros bs; simpl; [intros _ []|].
  destruct (g a0) as [err|b0] eqn:Hg; cbn [exc_bind]; [discriminate|].
  destruct (mapE g l) as [err|bs0]; cbn [exc_bind]; [discriminate|].
  intros H. injection H as <-. intros [<-|Hin].
  - exists b0. split; [now left|exact Hg].
  - destruct (IH bs0 eq_refl Hin) as [b [Hb Hgb]].
    exists b. split; [now right|exact Hgb].
Qed.


Section MissingValues.

Variable latex : expr -> string.
Variable str_num : number -> string.
Variable float_of : expr -> exc number.


End MissingValues.


(* ================================================================== *)
(** ** What construction reads of the signature                        *)
(* ================================================================== *)



(** X7: a formula that has a positional parameter and returns a plain
    number cannot be constructed: the first [diff] raises
    [AttributeError]. *)
Theorem constant_formula_AttributeError (func : callable) (n : number) :
  no_required_kwonly func = true ->
  args (getfullargspec func) <> [] ->
  body func = PyNum n ->
  exists err, init func = inl err /\ exc_class err = "AttributeError".
Proof.
  intros Hk Ha Hb. unfold init, init_traced, call_with_symbols.
  unfold no_required_kwonly in Hk. rewrite (find_negb_forallb _ _ Hk), Hb.
  cbn [exc_bind].
  destruct (args (getfullargspec func)) as [|v vars]; [congruence|].
  cbn [init_loop diff_method exc_bind]. eexists. split; reflexivity.
Qed.

Lemma constant_formula_AttributeError_witness :
  no_required_kwonly constant = true /\
  args (getfullargspec constant) <> [] /\
  body constant = PyNum (Int 3) /\
  exists err, init constant = inl err /\ exc_class err = "AttributeError".
Proof.
  assert (Ha : args (getfullargspec constant) <> []) by discriminate.
  split; [reflexivity|]. split; [exact Ha|]. split; [reflexivity|].
  exact (constant_formula_AttributeError constant (Int 3) eq_refl Ha eq_refl).
Defined.

(* ================================================================== *)
(** ** A key that names another symbol of the body                     *)
(* ================================================================== *)

Local Open Scope R_scope.

(** C10, as stated, fails: for [scaled], whose body mentions the symbol
    [g] besides its parameter, two mappings that agree on ["x"] and on
    ["delta_x"] and differ under the key ["g"] give different results. *)
Lemma result_depends_on_foreign_symbol :
  init scaled = inr error_scaled /\
  variables error_scaled = ["x"] /\
  dict_get values_g2 "x" = dict_get values_g3 "x" /\
  dict_get values_g2 "delta_x" = dict_get values_g3 "delta_x" /\
  fst (result values_g2 error_scaled) <> fst (result values_g3 error_scaled) /\
  (exists t, fst (result values_g2 error_scaled) = inr t /\
             value_of t = Some 1) /\
  (exists t, fst (result values_g3 error_scaled) = inr t /\
             value_of t = Some (3 / 2)).
Proof.
  split; [reflexivity|]. split; [reflexivity|]. split; [reflexivity|].
  split; [reflexivity|]. split; [|split].
  - vm_compute. discriminate.
  - eexists. split; [vm_compute; reflexivity|].
    unfold value_of. cbn [eval opt_bind num_val]. rewrite !Q2R_int.
    f_equal. unfold Q2R. cbn [Qnum Qden]. rewrite Rabs_pos_eq; lra.
  - eexists. split; [vm_compute; reflexivity|].
    unfold value_of. cbn [eval opt_bind num_val]. rewrite !Q2R_int.
    f_equal. unfold Q2R. cbn [Qnum Qden]. rewrite Rabs_pos_eq; lra.
Qed.

Local Close Scope R_scope.

(* ================================================================== *)
(** ** When result returns, substitute returns                         *)
(* ================================================================== *)

(** X4: on an instance built by the constructor, whenever [result]
    returns on a mapping, [substitute] returns on it too. *)
Theorem result_returns_substitute_returns
    (latex : expr -> string) (str_num : number -> string)
    (func : callable) (self : Error) (values : dict measurement) (t : expr) :
  init func = inr self ->
  fst (result values self) = inr t ->
  exists s, substitute latex str_num values self = (inr s, self).
Proof.
  intros Hi Hr. destruct (init_inr _ _ Hi) as (Hv & He & _).
  rewrite result_run, He, <- Hv in Hr. cbn [fst] in Hr.
  destruct (mapE _ _) as [err|terms] eqn:Hterms; [discriminate|].
  rewrite substitute_run.
  match goal with
  | |- context [mapE ?g (variables self)] =>
      destruct (proj2 (mapE_inr_iff g (variables self))) as [ss Hss]
  end.
  - intros v Hin.
    destruct (mapE_inr_of _ _ _ ("delta_" ++ v) Hterms) as [b [_ Hb]].
    { apply in_map. exact Hin. }
    rewrite term_of_delta in Hb. unfold getitem in *.
    assert (Hin' := Hin). rewrite Hv in Hin'.
    destruct (init_derivative_entry _ _ _ Hi Hin') as (e & _ & ->).
    cbn [exc_bind].
    destruct (dict_get values ("delta_" ++ v)); [|discriminate].
    cbn [exc_bind]. eauto.
  - rewrite Hss. cbn [exc_bind]. eauto.
Qed.

Lemma result_returns_substitute_returns_witness :
  init my_function1 = inr error1 /\
  fst (result values1 error1) =
    inr (sum [Mul (Num (Float (4 # 10)))
                  (Abs (subs (value_dict values1) (diff "a" formula1)));
              Mul (Num (Float (5 # 10)))
                  (Abs (subs (value_dict values1) (diff "b" formula1)))]) /\
  exists s, substitute (fun _ => "X") py_str values1 error1 = (inr s, error1).
Proof.
  split; [reflexivity|]. split; [reflexivity|].
  exact (result_returns_substitute_returns (fun _ => "X") py_str
           my_function1 error1 values1 _ eq_refl eq_refl).
Defined.

(* ================================================================== *)
(** ** The linear law on exact inputs                                  *)
(* ================================================================== *)

Lemma exact_diff (x : string) (e : expr) :
  exact_expr e = true -> exact_expr (diff x e) = true.
Proof.
  induction e; rewrite diff_unfold;
    destruct (occurs x _); cbn [negb]; try reflexivity;
    cbn [exact_expr]; rewrite ?andb_true_iff.
  all: try (intros [H1 H2]); try (intros H1).
  all: try (destruct (occurs x e2)); cbn [negb exact_expr exact_number two one];
    rewrite ?andb_true_iff; repeat split; auto.
Qed.

Lemma exact_subs (d : dict number) (e : expr) :
  (forall k n, dict_get d k = Some n -> exact_number n = true) ->
  exact_expr e = true -> exact_expr (subs d e) = true.
Proof.
  intros Hd. induction e; cbn [subs exact_expr]; rewrite ?andb_true_iff;
    try (intros [H1 H2]; split; auto); auto.
  intros _. destruct (dict_get d name) as [n|] eqn:E; cbn [exact_expr]; eauto.
Qed.

Lemma exact_sum_from (terms : list expr) (acc : expr) :
  exact_expr acc = true ->
  (forall t, In t terms -> exact_expr t = true) ->
  exact_expr (fold_left Add terms acc) = true.
Proof.
  revert acc. induction terms as [|t terms IH]; intros acc Ha Ht; simpl; auto.
  apply IH.
  - cbn [exact_expr]. rewrite Ha. apply Ht. now left.
  - intros t' Hin. apply Ht. now right.
Qed.

Lemma exact_inputs_get (values : dict measurement) (k : string)
    (m : measurement) :
  exact_inputs values = true -> dict_get values k = Some m ->
  exact_number (fst m) = true.
Proof.
  unfold exact_inputs, dict_values. rewrite forallb_forall. intros H Hg.
  apply H. apply in_map_iff.
  induction values as [|[k' m'] values IH]; simpl in *; [discriminate|].
  destruct (String.eqb k k').
  - injection Hg as <-. exists (k', m'). auto.
  - destruct (IH (fun x Hx => H x (or_intror Hx)) Hg) as [kv [Hs Hin]].
    exists kv. auto.
Qed.

(** The terms [result] sums, when every uncertainty entry is present and
    every first segment is a declared name. *)
Lemma terms_form (func : callable) (self : Error) (e : expr)
    (values : dict measurement) (unc : string -> number) :
  init func = inr self ->
  body func = PyExpr e ->
  (forall v, In v (variables self) ->
     In (first_segment v) (variables self) /\
     exists unit, dict_get values ("delta_" ++ v) = Some (unc v, unit)) ->
  forall l, incl l (variables self) ->
    mapE (term_of (derivatives self) values)
         (map (fun v => "delta_" ++ v) l) =
    inr (map (fun v => Mul (Num (unc v))
                           (Abs (subs (value_dict values)
                                      (diff (first_segment v) e)))) l).
Proof.
  intros Hi Hb Hall. destruct (init_inr _ _ Hi) as (Hv & _).
  induction l as [|v l IH]; intros Hl; cbn [map mapE]; auto.
  assert (Hin : In v (variables self)) by (apply Hl; now left).
  destruct (Hall v Hin) as [Hseg [unit Hu]].
  rewrite term_of_delta. unfold getitem. rewrite Hu. cbn [exc_bind fst].
  rewrite Hv in Hseg.
  destruct (init_derivative_entry _ _ _ Hi Hseg) as (e' & Hb' & Hd).
  rewrite Hb in Hb'. injection Hb' as <-. rewrite Hd. cbn [exc_bind].
  rewrite IH; auto. intros w Hw. apply Hl. now right.
Qed.

(** X12: the linear law on exact inputs.  When the body and the mapping
    hold whole numbers only, no parameter name has an underscore, every
    uncertainty entry is present and every derivative has a value at the
    measurement point, [result] returns an expression that holds whole
    numbers only, so that no rounding takes part in it, and whose value is
    [0] plus, in declaration order, uncertainty times the absolute value
    of the derivative. *)
Theorem linear_law_exact_inputs (func : callable) (self : Error) (e : expr)
    (values : dict measurement) (unc : string -> number) (dval : string -> R) :
  init func = inr self ->
  body func = PyExpr e ->
  exact_expr e = true ->
  exact_inputs values = true ->
  (forall v, In v (variables self) -> no_underscore v = true) ->
  (forall v, In v (variables self) ->
     exists unit, dict_get values ("delta_" ++ v) = Some (unc v, unit)) ->
  (forall v, In v (variables self) ->
     eval (env_of (value_dict values)) (diff v e) = Some (dval v)) ->
  exists t, result values self = (inr t, self) /\
            exact_expr t = true /\
            value_of t =
            Some (linear_sum 0
                    (map (fun v => (Q2R (num_val (unc v)), dval v))
                         (variables self))).
Proof.
  intros Hi Hb He Hx Hplain Hunc Hval.
  assert (Hseg : forall v, In v (variables self) -> first_segment v = v).
  { intros v Hin. apply first_segment_plain. now apply Hplain. }
  destruct (result_linear_law func self e values unc dval Hi Hb Hseg Hunc Hval)
    as [t [Hr Hvalue]].
  exists t. split; [exact Hr|]. split; [|exact Hvalue].
  destruct (init_inr _ _ Hi) as (Hv & Hes & _).
  rewrite result_run, Hes, <- Hv in Hr.
  rewrite (terms_form func self e values unc Hi Hb) in Hr.
  - cbn [exc_bind] in Hr. injection Hr as <-.
    apply exact_sum_from; [reflexivity|].
    intros t Hin. apply in_map_iff in Hin. destruct Hin as [v [<- Hvin]].
    cbn [exact_expr]. apply andb_true_iff. split.
    + destruct (Hunc v Hvin) as [unit Hu].
      exact (exact_inputs_get values _ _ Hx Hu).
    + apply exact_subs; [|now apply exact_diff].
      intros k n Hk. rewrite dict_get_value_dict in Hk.
      destruct (dict_get values k) as [m|] eqn:Hm; [|discriminate].
      injection Hk as <-. exact (exact_inputs_get values _ _ Hx Hm).
  - intros v Hin. split; [now rewrite (Hseg v Hin)|]. now apply Hunc.
  - apply incl_refl.
Qed.

Local Open Scope R_scope.

Lemma linear_law_exact_inputs_witness :
  init my_function1 = inr error1 /\
  exact_expr formula1 = true /\
  exact_inputs values1_int = true /\
  exists t, result values1_int error1 = (inr t, error1) /\
            exact_expr t = true /\
            value_of t =
            Some (linear_sum 0 [(Q2R (inject_Z 2), 1 + 2 ^ 3);
                                (Q2R (inject_Z 3), 3 * 1 * 2 ^ 2)]).
Proof.
  split; [reflexivity|]. split; [reflexivity|]. split; [reflexivity|].
  apply (linear_law_exact_inputs my_function1 error1 formula1 values1_int
           (fun v => if String.eqb v "a" then Int 2 else Int 3)
           (fun v => if String.eqb v "a" then 1 + 2 ^ 3 else 3 * 1 * 2 ^ 2)
           eq_refl eq_refl eq_refl eq_refl).
  - simpl. intros v [<-|[<-|[]]]; reflexivity.
  - simpl. intros v [<-|[<-|[]]]; eexists; reflexivity.
  - simpl variables. intros v [<-|[<-|[]]].
    + cbn. rewrite !Q2R_int, rpow_3. cbn [opt_bind]. f_equal. ring.
    + cbn. rewrite !Q2R_int.
      replace (3 - 1) with 2 by ring.
      rewrite rpow_3, rpow_2. cbn [opt_bind]. f_equal. ring.
Defined.

Local Close Scope R_scope.
